(** * A bounded connection pool ([lib/pool.js]): model and verified properties

    The pool of [lib/pool.js] is a set of closure variables ([closed],
    [connectionInCreation], [idleConnections], [activeConnections],
    [taskQueue], [firstTaskTimeout]) mutated by callbacks that the Node.js
    event loop runs one at a time.  The embedding below keeps that shape:

    - [Pool] is the record of the closure variables, together with the part
      of the runtime the callbacks are registered with (timers, the
      [process.nextTick] queue, the pending [connect]/[ping]/[query]/
      [rollback] operations of the sessions) and a chronological [log] of
      every externally visible action;
    - every JavaScript function of the file is a computation in the monad
      [M] (state, plus a thrown exception that aborts the callback and keeps
      the mutations done so far);
    - [step] runs one callback to completion for one [Event]; the order in
      which pending events are delivered is left to the environment. *)

From Stdlib Require Import ZArith List Bool Lia.
From stdpp Require Import base gmap list strings.

Open Scope Z_scope.

(** ** Data *)

(** [opts]: the three options the pool reads. *)
Record Options := mkOptions {
  connectionLimit : Z;
  acquireTimeout : Z;
  minDelayValidation : Z
}.

(** Modelled from the spec: the module [lib/misc/errors] is not part of the
    sources at hand; only the two identifiers the pool uses are named, and
    the spec requires them to be distinguishable from each other and from
    every session or query error. *)
Inductive Errno :=
| ER_POOL_ALREADY_CLOSED
| ER_GET_CONNECTION_TIMEOUT
| ER_OTHER (code : Z).

(** An error object: the seven arguments of [Errors.createError]. *)
Record SqlError := createError {
  message : string;
  fatal : bool;
  info : option string;
  sqlState : string;
  errno : Errno;
  stack : option string;
  addHeader : bool
}.

(** What a callback may throw. *)
Inductive Exn :=
| TypeError (what : string)
| JsError (msg : string).

(** [conn.lastUse] holds either [Date.now()] (a number) or [new Date(0)]
    (a Date object, which the subtraction in [getIdleValidConnection]
    coerces to its time value). *)
Inductive LastUse :=
| Stamp (ms : Z)
| DateObj (ms : Z).

Definition valueOf (t : LastUse) : Z :=
  match t with Stamp ms => ms | DateObj ms => ms end.

(** A session object.  [cid] is the identity of the object (what [===]
    compares), [threadId] the key it is filed under in [activeConnections],
    and [self] tells whether the [self] captured by its wrappers is the
    pool ([true]) or [undefined] ([false]). *)
Record Conn := mkConn {
  cid : nat;
  threadId : Z;
  self : bool
}.

Definition same_conn (a b : Conn) : bool := Nat.eqb (cid a) (cid b).

(** The promise returned by [getConnection]/[query], with the arguments of
    the call. [None] is JavaScript's [undefined]. *)
Record Request := mkRequest {
  promise : nat;
  req_sql : option string;
  req_values : list string
}.

(** [if (sql)]: [undefined] and the empty string are falsy. *)
Definition truthy (sql : option string) : bool :=
  match sql with
  | None => false
  | Some q => negb (String.eqb q EmptyString)
  end.

(** A queued task [{timeout, reject, resolve, sql, values}]; [resolve] and
    [reject] settle the promise [task_promise]. *)
Record Task := mkTask {
  timeout : Z;
  task_promise : nat;
  sql : option string;
  values : list string
}.

Definition same_task (a b : Task) : bool := Nat.eqb (task_promise a) (task_promise b).

(** A timer set by [setTimeout(rejectAndResetTimeout, delay, task)]. *)
Record Timer := mkTimer {
  timer_id : nat;
  delay : Z;
  timer_task : Task
}.

(** A callback queued by [process.nextTick]. *)
Inductive Tick :=
| TickHandleTaskQueue
| TickAddConnection (pool : bool)
| TickReject (task : Task) (err : SqlError).

(** Who waits for the result of a query started by the pool. *)
Inductive QueryCont :=
| QRequest (p : nat)
| QTask (task : Task).

Inductive Value :=
| VConn (c : Conn)
| VRows (rows : list string).

(** What the wrapped [conn.end()] returns: a promise, or nothing in
    callback mode. *)
Inductive Ending :=
| EndPromise (c : Conn)
| EndUndefined.

(** Who follows the promise that a wrapped [conn.end()] returned:
    [releaseWithoutError] ignores it ([.catch(() => {})]), a client of the
    session keeps it for itself (it is the client's, and is not followed
    here), and [pool.end()] passes it to [Promise.all], whose promise is
    [p] and awaits [n] sessions.  In callback mode nothing is returned and
    [pool.end()] passes no callback. *)
Inductive EndCont :=
| EndIgnored
| EndCaller
| EndAll (p : nat) (n : nat).

(** Externally visible actions, in the order they happen. *)
Inductive Action :=
| Resolve (p : nat) (v : Value)
| Reject (p : nat) (e : SqlError)
| ResolveAll (p : nat) (n : nat)
| RejectAll (p : nat) (e : Exn)
| CallConnect (c : nat)
| CallPing (c : Conn)
| CallQuery (c : Conn) (q : option string) (vs : list string)
| CallRollback (c : Conn)
| CallInitialEnd (c : Conn)
| CallEndNew (c : nat)
| CallInitialDestroy (c : Conn)
| ClearTimeout (id : nat)
| Uncaught (e : Exn).

(** ** Pool state *)

Record Pool := mkPool {
  opts : Options;
  useCallback : bool;
  (* closure variables of [Pool] *)
  closed : bool;
  connectionInCreation : bool;
  idleConnections : list Conn;
  activeConnections : gmap Z Conn;
  taskQueue : list Task;
  firstTaskTimeout : option nat;
  (* the mutable field of the session objects *)
  lastUse : gmap nat LastUse;
  (* runtime: live timers, nextTick queue, pending promise reactions and
     pending session operations *)
  timers : list Timer;
  tickQueue : list Tick;
  rejected : list Request;
  connecting : list (nat * bool);
  pinging : list (Conn * option Request);
  querying : list (Conn * QueryCont);
  rollingBack : list (Conn * EndCont);
  nextConn : nat;
  nextPromise : nat;
  nextTimer : nat;
  log : list Action
}.

Definition set_closed (v : bool) (s : Pool) : Pool :=
  mkPool (opts s) (useCallback s) v (connectionInCreation s) (idleConnections s)
    (activeConnections s) (taskQueue s) (firstTaskTimeout s) (lastUse s) (timers s)
    (tickQueue s) (rejected s) (connecting s) (pinging s) (querying s) (rollingBack s)
    (nextConn s) (nextPromise s) (nextTimer s) (log s).

Definition set_connectionInCreation (v : bool) (s : Pool) : Pool :=
  mkPool (opts s) (useCallback s) (closed s) v (idleConnections s) (activeConnections s)
    (taskQueue s) (firstTaskTimeout s) (lastUse s) (timers s) (tickQueue s) (rejected s)
    (connecting s) (pinging s) (querying s) (rollingBack s) (nextConn s) (nextPromise s)
    (nextTimer s) (log s).

Definition set_idleConnections (v : list Conn) (s : Pool) : Pool :=
  mkPool (opts s) (useCallback s) (closed s) (connectionInCreation s) v
    (activeConnections s) (taskQueue s) (firstTaskTimeout s) (lastUse s) (timers s)
    (tickQueue s) (rejected s) (connecting s) (pinging s) (querying s) (rollingBack s)
    (nextConn s) (nextPromise s) (nextTimer s) (log s).

Definition set_activeConnections (v : gmap Z Conn) (s : Pool) : Pool :=
  mkPool (opts s) (useCallback s) (closed s) (connectionInCreation s) (idleConnections
    s) v (taskQueue s) (firstTaskTimeout s) (lastUse s) (timers s) (tickQueue s)
    (rejected s) (connecting s) (pinging s) (querying s) (rollingBack s) (nextConn s)
    (nextPromise s) (nextTimer s) (log s).

Definition set_taskQueue (v : list Task) (s : Pool) : Pool :=
  mkPool (opts s) (useCallback s) (closed s) (connectionInCreation s) (idleConnections
    s) (activeConnections s) v (firstTaskTimeout s) (lastUse s) (timers s) (tickQueue s)
    (rejected s) (connecting s) (pinging s) (querying s) (rollingBack s) (nextConn s)
    (nextPromise s) (nextTimer s) (log s).

Definition set_firstTaskTimeout (v : option nat) (s : Pool) : Pool :=
  mkPool (opts s) (useCallback s) (closed s) (connectionInCreation s) (idleConnections
    s) (activeConnections s) (taskQueue s) v (lastUse s) (timers s) (tickQueue s)
    (rejected s) (connecting s) (pinging s) (querying s) (rollingBack s) (nextConn s)
    (nextPromise s) (nextTimer s) (log s).

Definition set_lastUse (v : gmap nat LastUse) (s : Pool) : Pool :=
  mkPool (opts s) (useCallback s) (closed s) (connectionInCreation s) (idleConnections
    s) (activeConnections s) (taskQueue s) (firstTaskTimeout s) v (timers s) (tickQueue
    s) (rejected s) (connecting s) (pinging s) (querying s) (rollingBack s) (nextConn s)
    (nextPromise s) (nextTimer s) (log s).

Definition set_timers (v : list Timer) (s : Pool) : Pool :=
  mkPool (opts s) (useCallback s) (closed s) (connectionInCreation s) (idleConnections
    s) (activeConnections s) (taskQueue s) (firstTaskTimeout s) (lastUse s) v (tickQueue
    s) (rejected s) (connecting s) (pinging s) (querying s) (rollingBack s) (nextConn s)
    (nextPromise s) (nextTimer s) (log s).

Definition set_tickQueue (v : list Tick) (s : Pool) : Pool :=
  mkPool (opts s) (useCallback s) (closed s) (connectionInCreation s) (idleConnections
    s) (activeConnections s) (taskQueue s) (firstTaskTimeout s) (lastUse s) (timers s) v
    (rejected s) (connecting s) (pinging s) (querying s) (rollingBack s) (nextConn s)
    (nextPromise s) (nextTimer s) (log s).

Definition set_rejected (v : list Request) (s : Pool) : Pool :=
  mkPool (opts s) (useCallback s) (closed s) (connectionInCreation s) (idleConnections
    s) (activeConnections s) (taskQueue s) (firstTaskTimeout s) (lastUse s) (timers s)
    (tickQueue s) v (connecting s) (pinging s) (querying s) (rollingBack s) (nextConn s)
    (nextPromise s) (nextTimer s) (log s).

Definition set_connecting (v : list (nat * bool)) (s : Pool) : Pool :=
  mkPool (opts s) (useCallback s) (closed s) (connectionInCreation s) (idleConnections
    s) (activeConnections s) (taskQueue s) (firstTaskTimeout s) (lastUse s) (timers s)
    (tickQueue s) (rejected s) v (pinging s) (querying s) (rollingBack s) (nextConn s)
    (nextPromise s) (nextTimer s) (log s).

Definition set_pinging (v : list (Conn * option Request)) (s : Pool) : Pool :=
  mkPool (opts s) (useCallback s) (closed s) (connectionInCreation s) (idleConnections
    s) (activeConnections s) (taskQueue s) (firstTaskTimeout s) (lastUse s) (timers s)
    (tickQueue s) (rejected s) (connecting s) v (querying s) (rollingBack s) (nextConn
    s) (nextPromise s) (nextTimer s) (log s).

Definition set_querying (v : list (Conn * QueryCont)) (s : Pool) : Pool :=
  mkPool (opts s) (useCallback s) (closed s) (connectionInCreation s) (idleConnections
    s) (activeConnections s) (taskQueue s) (firstTaskTimeout s) (lastUse s) (timers s)
    (tickQueue s) (rejected s) (connecting s) (pinging s) v (rollingBack s) (nextConn s)
    (nextPromise s) (nextTimer s) (log s).

Definition set_rollingBack (v : list (Conn * EndCont)) (s : Pool) : Pool :=
  mkPool (opts s) (useCallback s) (closed s) (connectionInCreation s) (idleConnections
    s) (activeConnections s) (taskQueue s) (firstTaskTimeout s) (lastUse s) (timers s)
    (tickQueue s) (rejected s) (connecting s) (pinging s) (querying s) v (nextConn s)
    (nextPromise s) (nextTimer s) (log s).

Definition set_nextConn (v : nat) (s : Pool) : Pool :=
  mkPool (opts s) (useCallback s) (closed s) (connectionInCreation s) (idleConnections
    s) (activeConnections s) (taskQueue s) (firstTaskTimeout s) (lastUse s) (timers s)
    (tickQueue s) (rejected s) (connecting s) (pinging s) (querying s) (rollingBack s) v
    (nextPromise s) (nextTimer s) (log s).

Definition set_nextPromise (v : nat) (s : Pool) : Pool :=
  mkPool (opts s) (useCallback s) (closed s) (connectionInCreation s) (idleConnections
    s) (activeConnections s) (taskQueue s) (firstTaskTimeout s) (lastUse s) (timers s)
    (tickQueue s) (rejected s) (connecting s) (pinging s) (querying s) (rollingBack s)
    (nextConn s) v (nextTimer s) (log s).

Definition set_nextTimer (v : nat) (s : Pool) : Pool :=
  mkPool (opts s) (useCallback s) (closed s) (connectionInCreation s) (idleConnections
    s) (activeConnections s) (taskQueue s) (firstTaskTimeout s) (lastUse s) (timers s)
    (tickQueue s) (rejected s) (connecting s) (pinging s) (querying s) (rollingBack s)
    (nextConn s) (nextPromise s) v (log s).

Definition set_log (v : list Action) (s : Pool) : Pool :=
  mkPool (opts s) (useCallback s) (closed s) (connectionInCreation s) (idleConnections
    s) (activeConnections s) (taskQueue s) (firstTaskTimeout s) (lastUse s) (timers s)
    (tickQueue s) (rejected s) (connecting s) (pinging s) (querying s) (rollingBack s)
    (nextConn s) (nextPromise s) (nextTimer s) v.

(** [new Pool(options, useCallback)] *)
Definition newPool (o : Options) (cb : bool) : Pool :=
  mkPool o cb false false [] ∅ [] None ∅ [] [] [] [] [] [] [] 0%nat 0%nat 0%nat [].

(** ** The callback monad *)

Inductive Res (A : Type) :=
| Ok (a : A) (s : Pool)
| Throw (e : Exn) (s : Pool).
Arguments Ok {A} a s.
Arguments Throw {A} e s.

Definition M (A : Type) : Type := Pool -> Res A.

Definition ret {A} (a : A) : M A := fun s => Ok a s.

Definition bind {A B} (m : M A) (f : A -> M B) : M B := fun s =>
  match m s with
  | Ok a s' => f a s'
  | Throw e s' => Throw e s'
  end.

Declare Scope pool_scope.
Delimit Scope pool_scope with pool.
Notation "x ← y ; z" := (bind y (fun x => z))
  (at level 20, y at level 100, z at level 200, only parsing) : pool_scope.
Notation "x ;; z" := (bind x (fun _ => z))
  (at level 100, z at level 200, only parsing, right associativity) : pool_scope.
Open Scope pool_scope.

Definition throw {A} (e : Exn) : M A := fun s => Throw e s.
Definition gets {A} (f : Pool -> A) : M A := fun s => Ok (f s) s.
Definition modify (f : Pool -> Pool) : M unit := fun s => Ok tt (f s).
Definition emit (a : Action) : M unit := modify (fun s => set_log (log s ++ [a]) s).

(** [p.catch(h)] on the promise of a callback, or [try { m } catch { h }]. *)
Definition catch {A} (m : M A) (h : Exn -> M A) : M A := fun s =>
  match m s with
  | Ok a s' => Ok a s'
  | Throw e s' => h e s'
  end.

Definition state_of {A} (r : Res A) : Pool :=
  match r with Ok _ s => s | Throw _ s => s end.

(** An exception that reaches the event loop. *)
Definition run_callback (m : M unit) (s : Pool) : Pool :=
  match m s with
  | Ok _ s' => s'
  | Throw e s' => set_log (log s' ++ [Uncaught e]) s'
  end.

(** ** The queue API the pool uses ([denque]), on lists *)

Definition peekFront {A} (q : list A) : option A := head q.
Definition push {A} (q : list A) (x : A) : list A := q ++ [x].
Definition peekAt {A} (q : list A) (idx : nat) : option A := q !! idx.
Definition removeOne {A} (q : list A) (idx : nat) : list A := delete idx q.

(** ** Runtime services *)

Definition nextTick (t : Tick) : M unit :=
  modify (fun s => set_tickQueue (push (tickQueue s) t) s).

(** [firstTaskTimeout = setTimeout(rejectAndResetTimeout, d, task)] *)
Definition setTimeout (d : Z) (task : Task) : M unit :=
  id ← gets nextTimer;
  modify (set_nextTimer (S id));;
  modify (fun s => set_timers (timers s ++ [mkTimer id d task]) s);;
  modify (set_firstTaskTimeout (Some id)).

Definition clearTimeout (id : nat) : M unit :=
  modify (fun s =>
    set_timers
      (List.filter (fun t => negb (Nat.eqb (timer_id t) id)) (timers s)) s);;
  emit (ClearTimeout id).

Definition newPromise : M nat :=
  p ← gets nextPromise;
  modify (set_nextPromise (S p));;
  ret p.

Definition deleteActive (conn : Conn) : M unit :=
  modify (fun s =>
    set_activeConnections (delete (threadId conn) (activeConnections s)) s).

Definition setActive (conn : Conn) : M unit :=
  modify (fun s =>
    set_activeConnections (<[threadId conn := conn]> (activeConnections s)) s).

Definition setLastUse (conn : Conn) (t : LastUse) : M unit :=
  modify (fun s => set_lastUse (<[cid conn := t]> (lastUse s)) s).

(** ** Public accessors *)

Definition poolActiveConnections (s : Pool) : Z :=
  Z.of_nat (size (activeConnections s)).

Definition poolIdleConnections (s : Pool) : Z :=
  Z.of_nat (length (idleConnections s)).

Definition totalConnections (s : Pool) : Z :=
  poolActiveConnections s + poolIdleConnections s.

Definition taskQueueSize (s : Pool) : Z :=
  Z.of_nat (length (taskQueue s)).

(** ** Internal functions of the pool *)

Definition poolClosedError : SqlError :=
  createError "pool is closed" false None "HY000"
    ER_POOL_ALREADY_CLOSED None false.

Definition timeoutError : SqlError :=
  createError "retrieve connection from pool timeout" false None "HY000"
    ER_GET_CONNECTION_TIMEOUT None false.

(** [checkPoolSize.apply(this)].  [&&] evaluates [this.totalConnections()]
    only when no creation is marked; with [this] undefined that is a
    TypeError. *)
Definition checkPoolSize (this : bool) : M unit :=
  inCreation ← gets connectionInCreation;
  if inCreation then ret tt
  else if negb this then throw (TypeError "this.totalConnections")
  else
    total ← gets totalConnections;
    limit ← gets (fun s => connectionLimit (opts s));
    if total <? limit then
      modify (set_connectionInCreation true);;
      nextTick (TickAddConnection this)
    else ret tt.

(** [addConnectionToPool(pool)], up to the call of [conn.connect]; the two
    variants differ in how the completion is delivered ([connected]). *)
Definition addConnectionToPool (pool : bool) : M unit :=
  modify (set_connectionInCreation true);;
  c ← gets nextConn;
  modify (set_nextConn (S c));;
  emit (CallConnect c);;
  modify (fun s => set_connecting (connecting s ++ [(c, pool)]) s).

Definition activatePool : M unit := addConnectionToPool true.

Definition rejectTimeout (task : Task) : M unit :=
  modify (set_firstTaskTimeout None);;
  q ← gets taskQueue;
  match q with
  | front :: rest =>
      if same_task task front then
        modify (set_taskQueue rest);;
        nextTick (TickReject task timeoutError)
      else throw (JsError "Rejection by timeout without task !!!")
  | [] => throw (JsError "Rejection by timeout without task !!!")
  end.

(** The [while] loop of [resetTimeoutToNextTask]; [q] is the task queue at
    loop entry, of which [rejectTimeout] shifts the head at each turn. *)
Fixpoint resetTimeoutLoop (currTime : Z) (q : list Task) : M unit :=
  match q with
  | [] => ret tt
  | nextTask :: q' =>
      if timeout nextTask <? currTime then
        rejectTimeout nextTask;;
        resetTimeoutLoop currTime q'
      else setTimeout (timeout nextTask - currTime) nextTask
  end.

Definition resetTimeoutToNextTask (now : Z) : M unit :=
  q ← gets taskQueue;
  resetTimeoutLoop now q.

Definition rejectAndResetTimeout (task : Task) (now : Z) : M unit :=
  rejectTimeout task;;
  resetTimeoutToNextTask now.

(** The wrapped [conn.end] (also [conn.release]): it starts a rollback and
    returns its promise (nothing in callback mode); [k] is what the caller
    does with the promise. *)
Definition wrappedEnd (conn : Conn) (k : EndCont) : M Ending :=
  emit (CallRollback conn);;
  modify (fun s => set_rollingBack (rollingBack s ++ [(conn, k)]) s);;
  cb ← gets useCallback;
  ret (if cb then EndUndefined else EndPromise conn).

Definition releaseWithoutError (conn : Conn) : M unit :=
  wrappedEnd conn EndIgnored;; ret tt.

(** [conn.release()] called by a client of the session. *)
Definition release (conn : Conn) : M unit :=
  wrappedEnd conn EndCaller;; ret tt.

Definition startQuery (conn : Conn) (q : option string) (vs : list string)
    (k : QueryCont) : M unit :=
  emit (CallQuery conn q vs);;
  modify (fun s => set_querying (querying s ++ [(conn, k)]) s).

(** [handleTaskQueue]; [now] is what [Date.now()] returns inside
    [resetTimeoutToNextTask]. *)
Definition handleTaskQueue (now : Z) : M unit :=
  t ← gets firstTaskTimeout;
  match t with
  | Some id => clearTimeout id;; modify (set_firstTaskTimeout None)
  | None => ret tt
  end;;
  q ← gets taskQueue;
  match q with
  | [] => ret tt
  | task :: rest =>
      modify (set_taskQueue rest);;
      idle ← gets idleConnections;
      match idle with
      | [] => throw (TypeError "conn.threadId")
      | conn :: idle' =>
          modify (set_idleConnections idle');;
          setActive conn;;
          resetTimeoutToNextTask now;;
          if truthy (sql task) then
            startQuery conn (sql task) (values task) (QTask task)
          else emit (Resolve (task_promise task) (VConn conn))
      end
  end.

(** [useConnection(conn, sql, values)], both variants, for the request
    [r]. *)
Definition useConnection (conn : Conn) (r : Request) : M unit :=
  if truthy (req_sql r) then
    startQuery conn (req_sql r) (req_values r) (QRequest (promise r))
  else emit (Resolve (promise r) (VConn conn)).

(** The promise of [getIdleValidConnection] resolves with [conn]; [k] is
    the request whose [handleRequest] listens, if any. *)
Definition acquired (k : option Request) (conn : Conn) : M unit :=
  match k with
  | Some r =>
      if truthy (req_sql r) then useConnection conn r
      else emit (Resolve (promise r) (VConn conn))
  | None => ret tt
  end.

(** ... or rejects with [null]: the rejection handler of [handleRequest]
    will run later. *)
Definition noIdle (k : option Request) : M unit :=
  match k with
  | Some r => modify (fun s => set_rejected (rejected s ++ [r]) s)
  | None => ret tt
  end.

Definition mustPing (s : Pool) (now : Z) (conn : Conn) : bool :=
  (minDelayValidation (opts s) <=? 0)
  || match lastUse s !! cid conn with
     | Some t => minDelayValidation (opts s) <? now - valueOf t
     | None => false
     end.

(** [getIdleValidConnection]; the recursion is on the idle queue, from
    which every call shifts one session. *)
Fixpoint getIdleValidConnectionFrom (idle : list Conn) (now : Z)
    (isValid : Conn -> bool) (k : option Request) : M unit :=
  match idle with
  | [] => noIdle k
  | conn :: idle' =>
      modify (set_idleConnections idle');;
      setActive conn;;
      ping ← gets (fun s => mustPing s now conn);
      if ping then
        emit (CallPing conn);;
        modify (fun s => set_pinging (pinging s ++ [(conn, k)]) s)
      else if isValid conn then acquired k conn
      else
        deleteActive conn;;
        getIdleValidConnectionFrom idle' now isValid k
  end.

Definition getIdleValidConnection (now : Z) (isValid : Conn -> bool)
    (k : option Request) : M unit :=
  idle ← gets idleConnections;
  getIdleValidConnectionFrom idle now isValid k.

(** The ping of [conn] completes.  In callback mode the promise of the
    recursive call is dropped. *)
Definition pinged (conn : Conn) (k : option Request) (ok : bool) (now : Z)
    (isValid : Conn -> bool) : M unit :=
  if ok then acquired k conn
  else
    deleteActive conn;;
    cb ← gets useCallback;
    getIdleValidConnection now isValid (if cb then None else k).

(** The rejection handler of [handleRequest]; its [this] is undefined. *)
Definition onRejected (r : Request) (now : Z) : M unit :=
  inCreation ← gets connectionInCreation;
  total ← gets totalConnections;
  limit ← gets (fun s => connectionLimit (opts s));
  (if negb inCreation && (total <? limit)
   then addConnectionToPool false else ret tt);;
  wait ← gets (fun s => acquireTimeout (opts s));
  let task := mkTask (now + wait) (promise r) (req_sql r) (req_values r) in
  t ← gets firstTaskTimeout;
  match t with
  | None => setTimeout wait task
  | Some _ => ret tt
  end;;
  modify (fun s => set_taskQueue (push (taskQueue s) task) s).

Definition handleRequest (q : option string) (vs : list string) (now : Z)
    (isValid : Conn -> bool) : M unit :=
  p ← newPromise;
  c ← gets closed;
  if c then emit (Reject p poolClosedError)
  else getIdleValidConnection now isValid (Some (mkRequest p q vs)).

(** The query the pool started on [conn] completes: the four places where
    the pool runs a query for a caller. *)

(** [useConnectionPromise]: [.then(res => ...).catch(err => ...)] *)
Definition useConnectionPromise (conn : Conn) (p : nat)
    (res : list string + SqlError) : M unit :=
  match res with
  | inl rows =>
      releaseWithoutError conn;;
      emit (Resolve p (VRows rows))
  | inr err =>
      releaseWithoutError conn;;
      emit (Reject p err)
  end.

(** [useConnectionCallback]: after [reject(err)] the promise is settled
    and [resolve(rows)] has no effect. *)
Definition useConnectionCallback (conn : Conn) (p : nat)
    (res : list string + SqlError) : M unit :=
  releaseWithoutError conn;;
  match res with
  | inr err => emit (Reject p err)
  | inl rows => emit (Resolve p (VRows rows))
  end.

(** The [task.sql] branch of [handleTaskQueue], callback variant ... *)
Definition taskQueryCallback (conn : Conn) (task : Task)
    (res : list string + SqlError) : M unit :=
  releaseWithoutError conn;;
  match res with
  | inr err => emit (Reject (task_promise task) err)
  | inl rows => emit (Resolve (task_promise task) (VRows rows))
  end.

(** ... and promise variant. *)
Definition taskQueryPromise (conn : Conn) (task : Task)
    (res : list string + SqlError) : M unit :=
  match res with
  | inl rows =>
      releaseWithoutError conn;;
      emit (Resolve (task_promise task) (VRows rows))
  | inr err =>
      releaseWithoutError conn;;
      emit (Reject (task_promise task) err)
  end.

Definition queried (conn : Conn) (k : QueryCont)
    (res : list string + SqlError) : M unit :=
  cb ← gets useCallback;
  match k with
  | QRequest p =>
      if cb then useConnectionCallback conn p res
      else useConnectionPromise conn p res
  | QTask task =>
      if cb then taskQueryCallback conn task res
      else taskQueryPromise conn task res
  end.

(** The two handlers of the wrapped [conn.end], after the rollback. *)
Definition rollbackOk (conn : Conn) (now : Z) : M unit :=
  setLastUse conn (Stamp now);;
  deleteActive conn;;
  c ← gets closed;
  if c then emit (CallInitialEnd conn)
  else
    modify (fun s => set_idleConnections (push (idleConnections s) conn) s);;
    nextTick TickHandleTaskQueue.

Definition rollbackFailed (conn : Conn) : M unit :=
  deleteActive conn;;
  emit (CallInitialEnd conn);;
  checkPoolSize (self conn).

(** A promise handler: what it throws rejects the promise of the chain;
    [None] is fulfilment. *)
Definition settle (m : M unit) : M (option Exn) := fun s =>
  match m s with
  | Ok _ s' => Ok None s'
  | Throw e s' => Ok (Some e) s'
  end.

(** The pending rollback [x] belongs to a wrapped [end] whose promise the
    [Promise.all] of [p] awaits. *)
Definition awaits (p : nat) (x : Conn * EndCont) : bool :=
  match snd x with
  | EndAll q _ => Nat.eqb q p
  | _ => false
  end.

(** Once [Promise.all] has rejected, what becomes of the other promises it
    was given changes nothing. *)
Definition forget (p : nat) (x : Conn * EndCont) : Conn * EndCont :=
  if awaits p x then (fst x, EndIgnored) else x.

(** The promise of a wrapped [end] settles with [outcome]; [k] follows it.
    [Promise.all] rejects with the first rejection, and is fulfilled (with
    one [undefined] per session) when the last promise it awaits is. *)
Definition settleEnd (k : EndCont) (outcome : option Exn) : M unit :=
  match k with
  | EndIgnored | EndCaller => ret tt
  | EndAll p n =>
      match outcome with
      | Some e =>
          emit (RejectAll p e);;
          modify (fun s => set_rollingBack (map (forget p) (rollingBack s)) s)
      | None =>
          rb ← gets rollingBack;
          if existsb (awaits p) rb then ret tt else emit (ResolveAll p n)
      end
  end.

(** The rollback of a wrapped [end] completes.  Promise variant:
    [rollback().then(ok).catch(failed)], a promise that is rejected when
    [failed] throws.  Callback variant: one callback. *)
Definition rolledBack (conn : Conn) (k : EndCont) (ok : bool) (now : Z) : M unit :=
  cb ← gets useCallback;
  if cb then
    if ok then rollbackOk conn now else rollbackFailed conn
  else
    outcome ← settle
      (if ok then catch (rollbackOk conn now) (fun _ => rollbackFailed conn)
       else rollbackFailed conn);
    settleEnd k outcome.

(** The loop of the ["error"] handler; [rest] is the idle queue from index
    [idx] on. *)
Fixpoint errorScan (conn : Conn) (idx : nat) (rest : list Conn) : M unit :=
  match rest with
  | [] => ret tt
  | currConn :: rest' =>
      if same_conn currConn conn then
        modify (fun s =>
          set_idleConnections (removeOne (idleConnections s) idx) s)
      else
        setLastUse currConn (DateObj 0);;
        errorScan conn (S idx) rest'
  end.

Definition onError (conn : Conn) : M unit :=
  deleteActive conn;;
  idle ← gets idleConnections;
  errorScan conn 0 idle;;
  checkPoolSize (self conn).

(** The wrapped [conn.destroy]. *)
Definition wrappedDestroy (conn : Conn) : M unit :=
  deleteActive conn;;
  emit (CallInitialDestroy conn);;
  checkPoolSize (self conn).

Definition overlayNewConnection (conn : Conn) (now : Z) : M unit :=
  modify (fun s => set_idleConnections (push (idleConnections s) conn) s);;
  setLastUse conn (Stamp now);;
  modify (set_connectionInCreation false);;
  checkPoolSize (self conn);;
  handleTaskQueue now.

(** [connect] of the session created as [c] with argument [pool]
    completes; [tid] is the thread id on success. *)
Definition connectOk (c : nat) (pool : bool) (tid : Z) (now : Z) : M unit :=
  cl ← gets closed;
  if cl then emit (CallEndNew c)
  else overlayNewConnection (mkConn c tid pool) now.

Definition connectFailed (pool : bool) : M unit :=
  modify (set_connectionInCreation false);;
  checkPoolSize pool.

Definition connected (c : nat) (pool : bool) (r : option Z) (now : Z) : M unit :=
  cb ← gets useCallback;
  match r with
  | Some tid =>
      if cb then connectOk c pool tid now
      else catch (connectOk c pool tid now) (fun _ => connectFailed pool)
  | None => connectFailed pool
  end.

(** [pool.end()]: the loop that shifts the idle queue and collects what
    each [conn.end()] returns. *)
Fixpoint drainIdle (idle : list Conn) (k : EndCont) : M (list Ending) :=
  match idle with
  | [] => ret []
  | conn :: idle' =>
      modify (set_idleConnections idle');;
      e ← wrappedEnd conn k;
      es ← drainIdle idle' k;
      ret (e :: es)
  end.

Definition is_undefined (e : Ending) : bool :=
  match e with EndUndefined => true | EndPromise _ => false end.

(** [Promise.all(idleConnectionsEndings)] for the promise [p]: an array
    without a promise is fulfilled as it is; otherwise the result is
    settled when the promises are ([settleEnd]). *)
Definition promiseAll (p : nat) (es : list Ending) : M unit :=
  if forallb is_undefined es then emit (ResolveAll p (length es)) else ret tt.

Definition pool_end : M unit :=
  p ← newPromise;
  t ← gets firstTaskTimeout;
  match t with
  | Some id => clearTimeout id
  | None => ret tt
  end;;
  c ← gets closed;
  if c then emit (Reject p poolClosedError)
  else
    idle ← gets idleConnections;
    cb ← gets useCallback;
    idleConnectionsEndings ←
      drainIdle idle (if cb then EndIgnored else EndAll p (length idle));
    modify (set_closed true);;
    modify (set_taskQueue []);;
    promiseAll p idleConnectionsEndings.

(** ** Events

    One event is one callback run by the event loop, or one call of the
    public API.  The environment supplies what the code reads from outside:
    [now] is [Date.now()], [isValid] the answer of [conn.isValid()], [tid]
    the thread id the server gave to a new session. *)

Inductive Event :=
| EvGetConnection (now : Z) (isValid : Conn -> bool)
| EvQuery (q : option string) (vs : list string) (now : Z)
    (isValid : Conn -> bool)
| EvEnd
| EvActivatePool
| EvRejected (p : nat) (now : Z)
| EvPing (c : nat) (ok : bool) (now : Z) (isValid : Conn -> bool)
| EvQueryDone (c : nat) (res : list string + SqlError)
| EvRelease (conn : Conn)
| EvRollback (c : nat) (ok : bool) (now : Z)
| EvDestroy (conn : Conn)
| EvError (conn : Conn)
| EvConnect (c : nat) (r : option Z) (now : Z)
| EvTick (now : Z)
| EvTimer (id : nat) (now : Z).

(** First element of a pending list that satisfies [p], and the others. *)
Fixpoint extract {A} (p : A -> bool) (l : list A) : option (A * list A) :=
  match l with
  | [] => None
  | x :: l' =>
      if p x then Some (x, l')
      else match extract p l' with
           | Some (y, r) => Some (y, x :: r)
           | None => None
           end
  end.

Definition is_conn (c : nat) (conn : Conn) : bool := Nat.eqb (cid conn) c.

Definition runTick (t : Tick) (now : Z) : M unit :=
  match t with
  | TickHandleTaskQueue => handleTaskQueue now
  | TickAddConnection pool => addConnectionToPool pool
  | TickReject task err => emit (Reject (task_promise task) err)
  end.

(** An event that nothing is pending for leaves the pool as it is. *)
Definition step (e : Event) (s : Pool) : Pool :=
  match e with
  | EvGetConnection now isValid =>
      run_callback (handleRequest None [] now isValid) s
  | EvQuery q vs now isValid =>
      run_callback (handleRequest q vs now isValid) s
  | EvEnd => run_callback pool_end s
  | EvActivatePool => run_callback activatePool s
  | EvRejected p now =>
      match extract (fun r => Nat.eqb (promise r) p) (rejected s) with
      | Some (r, rest) => run_callback (onRejected r now) (set_rejected rest s)
      | None => s
      end
  | EvPing c ok now isValid =>
      match extract (fun x => is_conn c (fst x)) (pinging s) with
      | Some ((conn, k), rest) =>
          run_callback (pinged conn k ok now isValid) (set_pinging rest s)
      | None => s
      end
  | EvQueryDone c res =>
      match extract (fun x => is_conn c (fst x)) (querying s) with
      | Some ((conn, k), rest) =>
          run_callback (queried conn k res) (set_querying rest s)
      | None => s
      end
  | EvRelease conn => run_callback (release conn) s
  | EvRollback c ok now =>
      match extract (fun x => is_conn c (fst x)) (rollingBack s) with
      | Some ((conn, k), rest) =>
          run_callback (rolledBack conn k ok now) (set_rollingBack rest s)
      | None => s
      end
  | EvDestroy conn => run_callback (wrappedDestroy conn) s
  | EvError conn => run_callback (onError conn) s
  | EvConnect c r now =>
      match extract (fun x => Nat.eqb (fst x) c) (connecting s) with
      | Some ((_, pool), rest) =>
          run_callback (connected c pool r now) (set_connecting rest s)
      | None => s
      end
  | EvTick now =>
      match tickQueue s with
      | t :: rest => run_callback (runTick t now) (set_tickQueue rest s)
      | [] => s
      end
  | EvTimer id now =>
      match extract (fun t => Nat.eqb (timer_id t) id) (timers s) with
      | Some (t, rest) =>
          run_callback (rejectAndResetTimeout (timer_task t) now)
            (set_timers rest s)
      | None => s
      end
  end.

Definition run (es : list Event) (s : Pool) : Pool :=
  fold_left (fun s e => step e s) es s.

(** States reachable from [s0] through events the environment is allowed
    to deliver. *)
Inductive Reachable (allowed : Pool -> Event -> Prop) (s0 : Pool) : Pool -> Prop :=
| reach_init : Reachable allowed s0 s0
| reach_step s e :
    Reachable allowed s0 s -> allowed s e -> Reachable allowed s0 (step e s).

Definition any_event (_ : Pool) (_ : Event) : Prop := True.

(** ** Quantities and predicates the properties are stated with *)

Fixpoint count {A} (f : A -> bool) (l : list A) : nat :=
  match l with
  | [] => 0%nat
  | x :: l' => ((if f x then 1 else 0) + count f l')%nat
  end.

Definition is_creation (t : Tick) : bool :=
  match t with TickAddConnection _ => true | _ => false end.

(** Session creations in flight: [addConnectionToPool] calls queued by
    [checkPoolSize], and sessions whose [connect] has not completed. *)
Definition creationsInFlight (s : Pool) : Z :=
  Z.of_nat (count is_creation (tickQueue s) + length (connecting s)).

(** Where the promise [p] is still referenced: that of an acquisition by
    the pending rejection handler of its [handleRequest], by a pending
    ping, by a queued task, by a queued [task.reject] or by a pending
    query; that of [pool.end()] by the pending rollbacks its [Promise.all]
    awaits (counted once). *)
Definition request_is (p : nat) (r : Request) : bool := Nat.eqb (promise r) p.

Definition ping_is (p : nat) (x : Conn * option Request) : bool :=
  match snd x with
  | Some r => request_is p r
  | None => false
  end.

Definition task_is (p : nat) (t : Task) : bool := Nat.eqb (task_promise t) p.

Definition tick_is (p : nat) (t : Tick) : bool :=
  match t with
  | TickReject task _ => task_is p task
  | _ => false
  end.

Definition cont_promise (k : QueryCont) : nat :=
  match k with
  | QRequest p => p
  | QTask task => task_promise task
  end.

Definition query_is (p : nat) (x : Conn * QueryCont) : bool :=
  Nat.eqb (cont_promise (snd x)) p.

Definition pendingEnd (p : nat) (rb : list (Conn * EndCont)) : nat :=
  Nat.min 1 (count (awaits p) rb).

Definition waiting (p : nat) (s : Pool) : nat :=
  (count (request_is p) (rejected s) + count (ping_is p) (pinging s)
   + count (task_is p) (taskQueue s) + count (tick_is p) (tickQueue s)
   + count (query_is p) (querying s) + pendingEnd p (rollingBack s))%nat.

(** The actions that settle the promise [p]. *)
Definition settles (p : nat) (a : Action) : bool :=
  match a with
  | Resolve q _ | Reject q _ | ResolveAll q _ | RejectAll q _ => Nat.eqb q p
  | _ => false
  end.

Definition settled (p : nat) (s : Pool) : nat := count (settles p) (log s).

(** The actions that terminate the session [conn]. *)
Definition terminates (conn : Conn) (a : Action) : bool :=
  match a with
  | CallInitialEnd c | CallInitialDestroy c => same_conn c conn
  | CallEndNew c => Nat.eqb c (cid conn)
  | _ => false
  end.

Definition is_uncaught (a : Action) : bool :=
  match a with Uncaught _ => true | _ => false end.

(** The client protocol the capacity bound relies on: [activatePool] is
    called once, on the new pool, and a rollback succeeds only on a
    session that is still lent (or once the pool is closed, when
    [pool.end] terminates the idle sessions through the wrapped [end]). *)
Definition protocol (s : Pool) (e : Event) : Prop :=
  match e with
  | EvActivatePool => s = newPool (opts s) (useCallback s)
  | EvRollback c true _ =>
      forall conn k rest,
        extract (fun x => is_conn c (fst x)) (rollingBack s) = Some ((conn, k), rest) ->
        closed s = true \/ activeConnections s !! threadId conn = Some conn
  | _ => True
  end.

(** The deadline timer is armed for the head of the task queue. *)
Definition timerAtHead (s : Pool) : Prop :=
  forall t, In t (timers s) ->
    exists front, peekFront (taskQueue s) = Some front /\
                  same_task (timer_task t) front = true.



(** ** What the loops of the pool compute *)

(** [resetTimeoutToNextTask]: the expired heads of the queue are rejected,
    the timer is armed for the first task that is not expired. *)
Fixpoint expiredTasks (now : Z) (q : list Task) : list Task :=
  match q with
  | [] => []
  | t :: q' => if timeout t <? now then t :: expiredTasks now q' else []
  end.

Fixpoint unexpiredTasks (now : Z) (q : list Task) : list Task :=
  match q with
  | [] => []
  | t :: q' => if timeout t <? now then unexpiredTasks now q' else q
  end.

Definition afterReset (now : Z) (s : Pool) : Pool :=
  let expired := expiredTasks now (taskQueue s) in
  let rest := unexpiredTasks now (taskQueue s) in
  let s1 :=
    set_tickQueue
      (tickQueue s ++ map (fun t => TickReject t timeoutError) expired)
      (set_taskQueue rest s) in
  match rest with
  | t :: _ =>
      set_firstTaskTimeout (Some (nextTimer s))
        (set_timers (timers s ++ [mkTimer (nextTimer s) (timeout t - now) t])
           (set_nextTimer (S (nextTimer s)) s1))
  | [] =>
      match expired with
      | [] => s1
      | _ :: _ => set_firstTaskTimeout None s1
      end
  end.

(** [getIdleValidConnection]: sessions are taken from the front of the
    idle queue; those that need no ping and are not valid are dropped, the
    scan stops at the first session that is valid or has to be pinged. *)
Inductive Validation :=
| Exhausted (dropped : list Conn)
| Candidate (dropped : list Conn) (conn : Conn) (ping : bool) (rest : list Conn).

Fixpoint validate (s : Pool) (now : Z) (isValid : Conn -> bool)
    (idle : list Conn) : Validation :=
  match idle with
  | [] => Exhausted []
  | conn :: idle' =>
      if mustPing s now conn then Candidate [] conn true idle'
      else if isValid conn then Candidate [] conn false idle'
      else match validate s now isValid idle' with
           | Exhausted d => Exhausted (conn :: d)
           | Candidate d c ping rest => Candidate (conn :: d) c ping rest
           end
  end.

Definition dropActive (dropped : list Conn) (active : gmap Z Conn) : gmap Z Conn :=
  fold_left (fun a c => delete (threadId c) a) dropped active.

(** The ["error"] handler: the sessions in front of [conn] in the idle
    queue are marked, [conn] is removed. *)
Fixpoint scanned (conn : Conn) (idle : list Conn) : list Conn :=
  match idle with
  | [] => []
  | c :: idle' => if same_conn c conn then [] else c :: scanned conn idle'
  end.

Fixpoint evict (conn : Conn) (idle : list Conn) : list Conn :=
  match idle with
  | [] => []
  | c :: idle' => if same_conn c conn then idle' else c :: evict conn idle'
  end.

Definition markStale (l : list Conn) (lu : gmap nat LastUse) : gmap nat LastUse :=
  fold_left (fun m c => <[cid c := DateObj 0]> m) l lu.

Definition acquireFrom (now : Z) (isValid : Conn -> bool) (k : option Request)
    (s : Pool) : Res unit :=
  let a := activeConnections s in
  match validate s now isValid (idleConnections s) with
  | Exhausted d =>
      noIdle k (set_activeConnections (dropActive d a) (set_idleConnections [] s))
  | Candidate d conn true rest =>
      Ok tt
        (set_pinging (pinging s ++ [(conn, k)])
           (set_log (log s ++ [CallPing conn])
              (set_activeConnections (<[threadId conn := conn]> (dropActive d a))
                 (set_idleConnections rest s))))
  | Candidate d conn false rest =>
      acquired k conn
        (set_activeConnections (<[threadId conn := conn]> (dropActive d a))
           (set_idleConnections rest s))
  end.

(** [pool.end] on an open pool. *)
Definition ending (cb : bool) (conn : Conn) : Ending :=
  if cb then EndUndefined else EndPromise conn.

Definition afterError (conn : Conn) (s : Pool) : Pool :=
  set_lastUse (markStale (scanned conn (idleConnections s)) (lastUse s))
    (set_idleConnections (evict conn (idleConnections s)) s).

(** What [settleEnd] adds to the log and leaves of the pending rollbacks
    [rest]. *)
Definition endSettled (k : EndCont) (outcome : option Exn)
    (rest : list (Conn * EndCont)) : list Action :=
  match k with
  | EndAll p n =>
      match outcome with
      | Some e => [RejectAll p e]
      | None => if existsb (awaits p) rest then [] else [ResolveAll p n]
      end
  | _ => []
  end.

Definition endFollowers (k : EndCont) (outcome : option Exn)
    (rest : list (Conn * EndCont)) : list (Conn * EndCont) :=
  match k, outcome with
  | EndAll p _, Some _ => map (forget p) rest
  | _, _ => rest
  end.

(** ** Invariants and frame conditions used in the proofs *)

(** At most one timer is live, and [firstTaskTimeout] holds its handle. *)
Definition timer_ok (s : Pool) : Prop :=
  timers s = [] \/
  exists t, timers s = [t] /\ firstTaskTimeout s = Some (timer_id t).

(** Every promise is referenced at most once, by a pending item or by the
    action that settled it, and only once it has been allocated. *)
Definition occ (p : nat) (s : Pool) : nat := (waiting p s + settled p s)%nat.

Definition promises_ok (s : Pool) : Prop :=
  forall p, (occ p s <= 1)%nat /\ ((1 <= occ p s)%nat -> (p < nextPromise s)%nat).

(** What the handlers that neither create nor release sessions leave
    unchanged. *)
Definition quiet (s s' : Pool) : Prop :=
  opts s' = opts s /\ useCallback s' = useCallback s /\ closed s' = closed s /\
  connectionInCreation s' = connectionInCreation s /\
  connecting s' = connecting s /\
  count is_creation (tickQueue s') = count is_creation (tickQueue s) /\
  nextPromise s' = nextPromise s /\ rollingBack s' = rollingBack s /\
  lastUse s' = lastUse s /\
  totalConnections s' <= totalConnections s /\
  (idleConnections s = [] ->
   idleConnections s' = [] /\ activeConnections s' ⊆ activeConnections s).






(** The outcome of a query, as delivered to the promise [p]. *)
Definition outcome (p : nat) (res : list string + SqlError) : Action :=
  match res with
  | inl rows => Resolve p (VRows rows)
  | inr err => Reject p err
  end.

Definition rejectedClosed (s : Pool) : Pool :=
  set_log (log s ++ [Reject (nextPromise s) poolClosedError])
    (set_nextPromise (S (nextPromise s)) s).

(** The first lines of [handleTaskQueue]: the live timer is cleared. *)
Definition timerCleared (s : Pool) : Pool :=
  match firstTaskTimeout s with
  | Some id =>
      set_firstTaskTimeout None
        (set_log (log s ++ [ClearTimeout id])
           (set_timers
              (List.filter (fun t => negb (Nat.eqb (timer_id t) id)) (timers s))
              s))
  | None => s
  end.

Definition rejections (l : list Task) : list Tick :=
  map (fun t => TickReject t timeoutError) l.

(** The pool when [handleTaskQueue] has taken the session [conn] for the
    head of the task queue, before the task is handled. *)
Definition served (now : Z) (conn : Conn) (idle' : list Conn) (rest : list Task)
    (s : Pool) : Pool :=
  afterReset now
    (set_activeConnections
       (<[threadId conn := conn]> (activeConnections (timerCleared s)))
       (set_idleConnections idle' (set_taskQueue rest (timerCleared s)))).

(** ** Concrete pools used to exercise the statements *)

Definition allValid (_ : Conn) : bool := true.

Definition session (c : nat) (tid : Z) : Conn := mkConn c tid true.

Definition is_rejection (a : Action) : bool :=
  match a with Reject _ _ => true | _ => false end.

(** The task that the rejection handler of [handleRequest] queues for the
    request [r] at time [now]. *)
Definition taskOf (s : Pool) (r : Request) (now : Z) : Task :=
  mkTask (now + acquireTimeout (opts s)) (promise r) (req_sql r) (req_values r).

(** What the caller of the request [k] sees when the session [conn] is
    acquired for it. *)
Definition handOver (k : option Request) (conn : Conn) : list Action :=
  match k with
  | Some r =>
      if truthy (req_sql r) then [CallQuery conn (req_sql r) (req_values r)]
      else [Resolve (promise r) (VConn conn)]
  | None => []
  end.


(** One session, lent and being released, and one waiter. *)
Definition releasing : Pool :=
  run [EvActivatePool; EvConnect 0 (Some 10) 1000;
       EvGetConnection 1001 allValid; EvGetConnection 1002 allValid;
       EvRejected 1 1002; EvRelease (session 0 10)]
    (newPool (mkOptions 1 1000 500) false).

(** One idle session that has to be pinged, and the acquisition that
    pings it. *)
Definition pinging1 : Pool :=
  run [EvActivatePool; EvConnect 0 (Some 10) 1000; EvGetConnection 2000 allValid]
    (newPool (mkOptions 1 1000 0) false).

(** Two idle sessions, both used less than [minDelayValidation] ago. *)
Definition twoIdle : Pool :=
  run [EvActivatePool; EvConnect 0 (Some 10) 1000; EvTick 1000;
       EvConnect 1 (Some 11) 1001]
    (newPool (mkOptions 2 1000 500) false).

(** A pool that runs a query for a caller. *)
Definition querying1 : Pool :=
  run [EvActivatePool; EvConnect 0 (Some 10) 1000;
       EvQuery (Some "SELECT 1"%string) [] 1001 allValid]
    (newPool (mkOptions 1 100 500) false).

(** A waiter is queued, the released session has been taken by another
    acquisition, and the deferred [handleTaskQueue] is still to run. *)
Definition overtaken : Pool :=
  run [EvActivatePool; EvConnect 0 (Some 10) 1000;
       EvGetConnection 1001 allValid; EvGetConnection 1002 allValid;
       EvRejected 1 1002; EvRelease (session 0 10);
       EvRollback 0 true 1003; EvGetConnection 1003 allValid]
    (newPool (mkOptions 1 1000 500) false).

(** The pool after a successful rollback of [conn] on an open pool. *)
Definition recycled (conn : Conn) (rb : list (Conn * EndCont)) (now : Z)
    (s : Pool) : Pool :=
  set_tickQueue (tickQueue s ++ [TickHandleTaskQueue])
    (set_idleConnections (idleConnections s ++ [conn])
       (set_activeConnections (delete (threadId conn) (activeConnections s))
          (set_lastUse (<[cid conn := Stamp now]> (lastUse s))
             (set_rollingBack rb s)))).

(** The pool after a successful rollback of [conn] on a closed pool. *)
Definition terminated (conn : Conn) (rb : list (Conn * EndCont)) (now : Z)
    (s : Pool) : Pool :=
  set_log (log s ++ [CallInitialEnd conn])
    (set_activeConnections (delete (threadId conn) (activeConnections s))
       (set_lastUse (<[cid conn := Stamp now]> (lastUse s))
          (set_rollingBack rb s))).

(** The pool after a failed rollback of [conn], before [checkPoolSize]. *)
Definition discarded (conn : Conn) (rb : list (Conn * EndCont)) (s : Pool) : Pool :=
  set_log (log s ++ [CallInitialEnd conn])
    (set_activeConnections (delete (threadId conn) (activeConnections s))
       (set_rollingBack rb s)).

(** What [checkPoolSize.apply(this)] throws. *)
Definition thrown (this : bool) (s : Pool) : option Exn :=
  if negb (connectionInCreation s) && negb this
  then Some (TypeError "this.totalConnections") else None.

(** The pool once [settleEnd] has run. *)
Definition endDelivered (k : EndCont) (outcome : option Exn) (s : Pool) : Pool :=
  set_rollingBack (endFollowers k outcome (rollingBack s))
    (set_log (log s ++ endSettled k outcome (rollingBack s)) s).

(** The dropped sessions of a validation are those that needed no ping
    and were not valid. *)
Definition dropped_ok (s : Pool) (now : Z) (isValid : Conn -> bool)
    (d : list Conn) : Prop :=
  Forall (fun c => mustPing s now c = false /\ isValid c = false) d.


(** Two idle sessions, then [pool.end()]. *)
Definition ended : Pool :=
  run [EvActivatePool; EvConnect 0 (Some 10) 1000; EvTick 1000;
       EvConnect 1 (Some 11) 1001; EvEnd]
    (newPool (mkOptions 2 1000 500) false).

(** A waiter and its deadline timer. *)
Definition waiting1 : Pool :=
  run [EvGetConnection 0 allValid; EvRejected 0 0]
    (newPool (mkOptions 1 100 500) false).



(** The request [k] is the one of the promise [p]. *)
Definition holds (k : option Request) (p : nat) : bool :=
  match k with
  | Some r => request_is p r
  | None => false
  end.

(** The pool after a [checkPoolSize] that starts a creation. *)
Definition grown (this : bool) (s : Pool) : Pool :=
  set_tickQueue (tickQueue s ++ [TickAddConnection this])
    (set_connectionInCreation true s).

(** One event allocates at most one promise, and references no promise
    more often than before, the new one apart. *)
Definition occ_ok (e : Event) (s : Pool) (p : nat) : Prop :=
  (nextPromise (step e s) = nextPromise s /\ (occ p (step e s) <= occ p s)%nat) \/
  (nextPromise (step e s) = S (nextPromise s) /\
   (occ p (step e s) <= occ p s + 1)%nat /\
   (p <> nextPromise s -> (occ p (step e s) <= occ p s)%nat)).

(** One idle session, used less than [minDelayValidation] ago. *)
Definition oneIdle : Pool :=
  run [EvActivatePool; EvConnect 0 (Some 10) 1000]
    (newPool (mkOptions 1 1000 500) false).

(** The only session of the pool is lent. *)
Definition lent : Pool :=
  run [EvActivatePool; EvConnect 0 (Some 10) 1000; EvGetConnection 1001 allValid]
    (newPool (mkOptions 1 1000 500) false).

(** The first creation is in flight. *)
Definition activated : Pool :=
  run [EvActivatePool] (newPool (mkOptions 1 1000 500) false).

(** Callback mode: one session being pinged for an acquisition. *)
Definition pingingCallback : Pool :=
  run [EvActivatePool; EvConnect 0 (Some 10) 1000; EvGetConnection 2000 allValid]
    (newPool (mkOptions 1 1000 0) true).

(** The identities of the sessions of a queue. *)
Definition cids (l : list Conn) : list nat := map cid l.

(** [Date.now() - conn.lastUse > opts.minDelayValidation], on a session
    whose [lastUse] is set. *)
Definition stale (s : Pool) (now : Z) (conn : Conn) : Prop :=
  exists t, lastUse s !! cid conn = Some t /\
            minDelayValidation (opts s) < now - valueOf t.

(** The events of a pool that grows after [activatePool]: each [connect]
    succeeds, then the creation that [checkPoolSize] deferred is run. *)
Fixpoint growth (n c : nat) (tid : nat -> Z) (now : Z) : list Event :=
  match n with
  | O => []
  | S n' =>
      EvConnect c (Some (tid c)) now :: EvTick now :: growth n' (S c) tid now
  end.

(** The pool during that growth, when [k] sessions are idle and the
    creation of the next one is in flight. *)
Definition growing (o : Options) (k : nat) (s : Pool) : Prop :=
  opts s = o /\ closed s = false /\ connectionInCreation s = true /\
  cids (idleConnections s) = seq 0 k /\ activeConnections s = ∅ /\
  taskQueue s = [] /\ firstTaskTimeout s = None /\ tickQueue s = [] /\
  connecting s = [(k, true)] /\ nextConn s = S k /\
  log s = map CallConnect (seq 0 (S k)).

(** Every idle session has its [lastUse] set. *)
Definition stamped (s : Pool) : Prop :=
  forall c, In c (idleConnections s) -> is_Some (lastUse s !! cid c).

(** The deadlines of a queue are in arrival order. *)
Fixpoint inArrivalOrder (q : list Task) : Prop :=
  match q with
  | [] => True
  | t :: q' => Forall (fun u => timeout t <= timeout u) q' /\ inArrivalOrder q'
  end.

(** A session released twice by its holder. *)
Definition doubleReleased : Pool :=
  run [EvActivatePool; EvConnect 0 (Some 10) 1000; EvGetConnection 1001 allValid;
       EvRelease (session 0 10); EvRelease (session 0 10);
       EvRollback 0 true 1002; EvRollback 0 true 1003]
    (newPool (mkOptions 1 1000 500) false).

(** [activatePool] called twice. *)
Definition activatedTwice : Pool :=
  run [EvActivatePool; EvActivatePool] (newPool (mkOptions 1 1000 500) false).

(** A pool whose [connectionLimit] is 0, activated. *)
Definition limitZero : Pool :=
  run [EvActivatePool; EvConnect 0 (Some 10) 1000]
    (newPool (mkOptions 0 1000 500) false).

(** Two waiters; the released session is taken by a third caller before
    the deferred [handleTaskQueue] runs, which then fails; a fourth caller
    is queued afterwards. *)
Definition offHead : Pool :=
  run [EvActivatePool; EvConnect 0 (Some 10) 1000;
       EvGetConnection 1001 allValid;
       EvGetConnection 1002 allValid; EvRejected 1 1002;
       EvGetConnection 1003 allValid; EvRejected 2 1003;
       EvRelease (session 0 10); EvRollback 0 true 1004;
       EvGetConnection 1004 allValid; EvTick 1005;
       EvGetConnection 1006 allValid; EvRejected 4 1006]
    (newPool (mkOptions 1 1000 500) false).

(** A waiter, a session created for it by the rejection handler of
    [handleRequest], then [pool.end()]. *)
Definition endedOnDemand : Pool :=
  run [EvGetConnection 0 allValid; EvRejected 0 0; EvConnect 0 (Some 10) 50; EvEnd]
    (newPool (mkOptions 1 100 500) false).

Ltac unfold_monad :=
  unfold bind, ret, gets, modify, throw, catch, emit, nextTick in *.

Lemma Pool_ext (s s' : Pool) :
  opts s = opts s' -> useCallback s = useCallback s' -> closed s = closed s' ->
  connectionInCreation s = connectionInCreation s' ->
  idleConnections s = idleConnections s' ->
  activeConnections s = activeConnections s' ->
  taskQueue s = taskQueue s' -> firstTaskTimeout s = firstTaskTimeout s' ->
  lastUse s = lastUse s' -> timers s = timers s' -> tickQueue s = tickQueue s' ->
  rejected s = rejected s' -> connecting s = connecting s' ->
  pinging s = pinging s' -> querying s = querying s' ->
  rollingBack s = rollingBack s' -> nextConn s = nextConn s' ->
  nextPromise s = nextPromise s' -> nextTimer s = nextTimer s' ->
  log s = log s' -> s = s'.
Proof. destruct s, s'; cbn; intros; subst; reflexivity. Qed.

Ltac pool_ext := apply Pool_ext; cbn; try reflexivity.

Lemma rejectTimeout_head task front rest s :
  taskQueue s = front :: rest -> same_task task front = true ->
  rejectTimeout task s =
    Ok tt (set_tickQueue (tickQueue s ++ [TickReject task timeoutError])
            (set_taskQueue rest (set_firstTaskTimeout None s))).
Proof.
  intros Hq Hsame. unfold rejectTimeout. unfold_monad. cbn. rewrite Hq, Hsame. reflexivity.
Qed.


Lemma same_task_refl t : same_task t t = true.
Proof. apply Nat.eqb_refl. Qed.

Lemma resetTimeoutLoop_eq now q :
  forall s, taskQueue s = q -> resetTimeoutLoop now q s = Ok tt (afterReset now s).
Proof.
  induction q as [|t q IH]; intros s Hq.
  - cbn. unfold ret, afterReset. rewrite Hq. cbn. f_equal. pool_ext; auto.
    now rewrite app_nil_r.
  - cbn. destruct (timeout t <? now) eqn:Hexp.
    + unfold bind. rewrite (rejectTimeout_head t t q s Hq (same_task_refl t)).
      rewrite IH by reflexivity. f_equal. unfold afterReset. cbn. rewrite Hq. cbn.
      rewrite Hexp.
      destruct (unexpiredTasks now q) as [|u rest] eqn:Hrest.
      * destruct (expiredTasks now q); pool_ext; cbn; try rewrite <- app_assoc; auto.
      * pool_ext; cbn; try rewrite <- app_assoc; auto.
    + unfold setTimeout. unfold_monad. cbn. f_equal. unfold afterReset. rewrite Hq. cbn.
      rewrite Hexp. pool_ext; auto. now rewrite app_nil_r.
Qed.

Lemma resetTimeoutToNextTask_eq now s :
  resetTimeoutToNextTask now s = Ok tt (afterReset now s).
Proof. unfold resetTimeoutToNextTask, bind, gets. now apply resetTimeoutLoop_eq. Qed.

Lemma validate_ext s s' now isValid idle :
  opts s' = opts s -> lastUse s' = lastUse s ->
  validate s' now isValid idle = validate s now isValid idle.
Proof.
  intros Ho Hl. induction idle as [|c idle IH]; cbn; [reflexivity|].
  unfold mustPing. rewrite Ho, Hl, IH. reflexivity.
Qed.

Lemma getIdleValidConnectionFrom_eq now isValid k idle :
  forall s, idleConnections s = idle ->
    getIdleValidConnectionFrom idle now isValid k s = acquireFrom now isValid k s.
Proof.
  induction idle as [|conn idle IH]; intros s Hi; unfold acquireFrom; rewrite Hi; cbn.
  - f_equal. pool_ext; auto.
  - unfold setActive, deleteActive. unfold_monad. cbn.
    fold (mustPing s now conn).
    replace (mustPing _ now conn) with (mustPing s now conn) by reflexivity.
    destruct (mustPing s now conn) eqn:Hp.
    + f_equal.
    + destruct (isValid conn) eqn:Hv.
      * reflexivity.
      * rewrite IH by reflexivity. unfold acquireFrom. cbn.
        rewrite (validate_ext s) by reflexivity.
        rewrite delete_insert_eq.
        destruct (validate s now isValid idle) as [d|d c [|] rest]; cbn; reflexivity.
Qed.

Lemma getIdleValidConnection_eq now isValid k s :
  getIdleValidConnection now isValid k s = acquireFrom now isValid k s.
Proof.
  unfold getIdleValidConnection, bind, gets. now apply getIdleValidConnectionFrom_eq.
Qed.

Lemma errorScan_eq conn rest :
  forall pre s, idleConnections s = pre ++ rest ->
    errorScan conn (length pre) rest s =
      Ok tt (set_lastUse (markStale (scanned conn rest) (lastUse s))
               (set_idleConnections (pre ++ evict conn rest) s)).
Proof.
  induction rest as [|c rest IH]; intros pre s Hi; cbn.
  - unfold ret. f_equal. pool_ext; auto.
  - destruct (same_conn c conn) eqn:Hc.
    + unfold modify. f_equal. pool_ext. rewrite Hi. unfold removeOne.
      clear. induction pre; cbn; [reflexivity|]. now f_equal.
    + unfold setLastUse, bind, modify.
      specialize (IH (pre ++ [c])). rewrite length_app in IH. cbn in IH.
      replace (length pre + 1)%nat with (S (length pre)) in IH by lia.
      rewrite IH by (cbn; rewrite Hi, <- app_assoc; reflexivity).
      f_equal. pool_ext. now rewrite <- app_assoc.
Qed.

Lemma onError_scan conn s :
  errorScan conn 0 (idleConnections s) s = Ok tt (afterError conn s).
Proof. apply (errorScan_eq conn (idleConnections s) [] s). reflexivity. Qed.

Lemma drainIdle_eq idle k :
  forall s, idleConnections s = idle ->
    drainIdle idle k s =
      Ok (map (ending (useCallback s)) idle)
        (set_rollingBack (rollingBack s ++ map (fun c => (c, k)) idle)
           (set_log (log s ++ map CallRollback idle)
              (set_idleConnections [] s))).
Proof.
  induction idle as [|c idle IH]; intros s Hi; cbn.
  - unfold ret. f_equal. pool_ext; auto; now rewrite app_nil_r.
  - unfold wrappedEnd. unfold_monad. cbn. rewrite IH by reflexivity. cbn.
    f_equal. pool_ext; now rewrite <- app_assoc.
Qed.

Lemma forallb_ending cb idle :
  forallb is_undefined (map (ending cb) idle) =
    match cb, idle with
    | false, _ :: _ => false
    | _, _ => true
    end.
Proof.
  destruct cb; cbn.
  - induction idle as [|c idle IH]; cbn; auto.
  - destruct idle; reflexivity.
Qed.

(** ** Counting *)

Lemma count_app {A} (f : A -> bool) l l' :
  count f (l ++ l') = (count f l + count f l')%nat.
Proof. induction l as [|x l IH]; cbn; [reflexivity|]. rewrite IH. lia. Qed.

Lemma count_map_none {A B} (f : B -> bool) (g : A -> B) l :
  (forall x, f (g x) = false) -> count f (map g l) = 0%nat.
Proof. intros H. induction l as [|x l IH]; cbn; [reflexivity|]. now rewrite H, IH. Qed.

Lemma count_settles_rollback p l : count (settles p) (map CallRollback l) = 0%nat.
Proof. now apply count_map_none. Qed.

Lemma existsb_count {A} (f : A -> bool) l :
  if existsb f l then (1 <= count f l)%nat else count f l = 0%nat.
Proof.
  induction l as [|x l IH]; cbn; [reflexivity|].
  destruct (f x); cbn; [lia|]. destruct (existsb f l); lia.
Qed.

Lemma existsb_false_count {A} (f : A -> bool) l :
  existsb f l = false -> count f l = 0%nat.
Proof. intros H. pose proof (existsb_count f l) as Hc. now rewrite H in Hc. Qed.

Lemma existsb_true_count {A} (f : A -> bool) l :
  existsb f l = true -> (1 <= count f l)%nat.
Proof. intros H. pose proof (existsb_count f l) as Hc. now rewrite H in Hc. Qed.

Lemma count_awaits_forget p q l :
  count (awaits p) (map (forget q) l) =
    if Nat.eqb q p then 0%nat else count (awaits p) l.
Proof.
  induction l as [|[c k] l IH]; cbn; [now destruct (Nat.eqb q p)|].
  rewrite IH. unfold forget, awaits. cbn.
  destruct k as [| |r n]; cbn; [now destruct (Nat.eqb q p)..|].
  destruct (Nat.eqb_spec r q) as [->|Hrq]; cbn.
  - destruct (Nat.eqb q p); reflexivity.
  - destruct (Nat.eqb_spec q p) as [->|Hqp]; [|reflexivity].
    destruct (Nat.eqb_spec r p); [contradiction|reflexivity].
Qed.

Lemma count_awaits_drained p k (idle : list Conn) :
  count (awaits p) (map (fun c => (c, k)) idle) =
    if awaits p (mkConn 0 0 false, k) then length idle else 0%nat.
Proof.
  unfold awaits. cbn.
  induction idle as [|c idle IH]; cbn; [now destruct k as [| |q n]; try destruct (Nat.eqb q p)|].
  rewrite IH. destruct k as [| |q n]; cbn; try reflexivity.
  destruct (Nat.eqb q p); reflexivity.
Qed.

Lemma count_creation_reject l :
  count is_creation (map (fun t => TickReject t timeoutError) l) = 0%nat.
Proof. now apply count_map_none. Qed.

Lemma extract_count {A} (f q : A -> bool) l x rest :
  extract q l = Some (x, rest) ->
  count f l = ((if f x then 1 else 0) + count f rest)%nat.
Proof.
  revert x rest. induction l as [|y l IH]; cbn; intros x rest H; [discriminate|].
  destruct (q y).
  - now inversion H; subst.
  - destruct (extract q l) as [[z r]|]; [|discriminate].
    inversion H; subst. cbn. rewrite (IH x r eq_refl). lia.
Qed.

Lemma extract_last {A} (p : A -> bool) l x :
  extract p l = None -> p x = true -> extract p (l ++ [x]) = Some (x, l).
Proof.
  intros Hn Hx. induction l as [|y l IH]; cbn in *; [now rewrite Hx|].
  destruct (p y); [discriminate|].
  destruct (extract p l) as [[z r]|]; [discriminate|].
  now rewrite IH.
Qed.

Lemma extract_none_count {A} (p : A -> bool) l :
  count p l = 0%nat -> extract p l = None.
Proof.
  induction l as [|y l IH]; cbn; [reflexivity|].
  destruct (p y); [discriminate|]. intros H. now rewrite IH.
Qed.

Lemma extract_true {A} (q : A -> bool) l x rest :
  extract q l = Some (x, rest) -> q x = true.
Proof.
  revert x rest. induction l as [|y l IH]; cbn; intros x rest H; [discriminate|].
  destruct (q y) eqn:E.
  - now inversion H; subst.
  - destruct (extract q l) as [[z r]|]; [|discriminate].
    inversion H; subst. now apply (IH x r).
Qed.


Lemma extract_singleton {A} (q : A -> bool) y x rest :
  extract q [y] = Some (x, rest) -> x = y /\ rest = [].
Proof. cbn. destruct (q y); intros H; inversion H; auto. Qed.

(** ** The active set *)

Lemma dropActive_subseteq d (a : gmap Z Conn) : dropActive d a ⊆ a.
Proof.
  revert a. induction d as [|c d IH]; intros a; cbn; [reflexivity|].
  etransitivity; [apply IH|apply delete_subseteq].
Qed.

Lemma size_delete_le (a : gmap Z Conn) k : (size (delete k a) <= size a)%nat.
Proof. apply map_subseteq_size, delete_subseteq. Qed.

Lemma size_insert_le (a : gmap Z Conn) k c : (size (<[k:=c]> a) <= S (size a))%nat.
Proof.
  destruct (a !! k) eqn:E.
  - rewrite map_size_insert_Some by eauto. lia.
  - rewrite map_size_insert_None by eauto. lia.
Qed.

Lemma size_dropActive_le d (a : gmap Z Conn) : (size (dropActive d a) <= size a)%nat.
Proof. apply map_subseteq_size, dropActive_subseteq. Qed.

Lemma validate_split s now isValid idle :
  match validate s now isValid idle with
  | Exhausted d => idle = d
  | Candidate d c _ rest => idle = d ++ c :: rest
  end.
Proof.
  induction idle as [|c idle IH]; cbn; [reflexivity|].
  destruct (mustPing s now c); [reflexivity|].
  destruct (isValid c); [reflexivity|].
  destruct (validate s now isValid idle); cbn; now f_equal.
Qed.

(** ** Frame of [afterReset] *)

Create Rewrite HintDb frame.

Lemma afterReset_frame now s :
  opts (afterReset now s) = opts s /\
  useCallback (afterReset now s) = useCallback s /\
  closed (afterReset now s) = closed s /\
  connectionInCreation (afterReset now s) = connectionInCreation s /\
  idleConnections (afterReset now s) = idleConnections s /\
  activeConnections (afterReset now s) = activeConnections s /\
  lastUse (afterReset now s) = lastUse s /\
  rejected (afterReset now s) = rejected s /\
  connecting (afterReset now s) = connecting s /\
  pinging (afterReset now s) = pinging s /\
  querying (afterReset now s) = querying s /\
  rollingBack (afterReset now s) = rollingBack s /\
  nextConn (afterReset now s) = nextConn s /\
  nextPromise (afterReset now s) = nextPromise s /\
  log (afterReset now s) = log s.
Proof.
  unfold afterReset.
  destruct (unexpiredTasks now (taskQueue s)), (expiredTasks now (taskQueue s));
    cbn; repeat split; reflexivity.
Qed.

Lemma afterReset_opts now s : opts (afterReset now s) = opts s.
Proof. apply (afterReset_frame now s). Qed.

Lemma afterReset_useCallback now s : useCallback (afterReset now s) = useCallback s.
Proof. apply (afterReset_frame now s). Qed.

Lemma afterReset_closed now s : closed (afterReset now s) = closed s.
Proof. apply (afterReset_frame now s). Qed.

Lemma afterReset_connectionInCreation now s : connectionInCreation (afterReset now s) = connectionInCreation s.
Proof. apply (afterReset_frame now s). Qed.

Lemma afterReset_idleConnections now s : idleConnections (afterReset now s) = idleConnections s.
Proof. apply (afterReset_frame now s). Qed.

Lemma afterReset_activeConnections now s : activeConnections (afterReset now s) = activeConnections s.
Proof. apply (afterReset_frame now s). Qed.

Lemma afterReset_lastUse now s : lastUse (afterReset now s) = lastUse s.
Proof. apply (afterReset_frame now s). Qed.

Lemma afterReset_rejected now s : rejected (afterReset now s) = rejected s.
Proof. apply (afterReset_frame now s). Qed.

Lemma afterReset_connecting now s : connecting (afterReset now s) = connecting s.
Proof. apply (afterReset_frame now s). Qed.

Lemma afterReset_pinging now s : pinging (afterReset now s) = pinging s.
Proof. apply (afterReset_frame now s). Qed.

Lemma afterReset_querying now s : querying (afterReset now s) = querying s.
Proof. apply (afterReset_frame now s). Qed.

Lemma afterReset_rollingBack now s : rollingBack (afterReset now s) = rollingBack s.
Proof. apply (afterReset_frame now s). Qed.

Lemma afterReset_nextConn now s : nextConn (afterReset now s) = nextConn s.
Proof. apply (afterReset_frame now s). Qed.

Lemma afterReset_nextPromise now s : nextPromise (afterReset now s) = nextPromise s.
Proof. apply (afterReset_frame now s). Qed.

Lemma afterReset_log now s : log (afterReset now s) = log s.
Proof. apply (afterReset_frame now s). Qed.

#[export] Hint Rewrite afterReset_opts
  afterReset_useCallback
  afterReset_closed
  afterReset_connectionInCreation
  afterReset_idleConnections
  afterReset_activeConnections
  afterReset_lastUse
  afterReset_rejected
  afterReset_connecting
  afterReset_pinging
  afterReset_querying
  afterReset_rollingBack
  afterReset_nextConn
  afterReset_nextPromise
  afterReset_log : frame.

(** ** Expired and unexpired tasks *)

Lemma expired_split now q : q = expiredTasks now q ++ unexpiredTasks now q.
Proof.
  induction q as [|t q IH]; cbn; [reflexivity|].
  destruct (timeout t <? now); cbn; [now f_equal|reflexivity].
Qed.

Lemma expired_all now q : Forall (fun t => timeout t < now) (expiredTasks now q).
Proof.
  induction q as [|t q IH]; cbn; [constructor|].
  destruct (timeout t <? now) eqn:E; constructor; [lia|assumption].
Qed.

Lemma unexpired_head now q :
  match unexpiredTasks now q with
  | u :: _ => now <= timeout u
  | [] => True
  end.
Proof.
  induction q as [|t q IH]; cbn; [exact I|].
  destruct (timeout t <? now) eqn:E; [assumption|]. cbn. lia.
Qed.



(** ** Symbolic execution of the callbacks *)

Ltac unfold_leaf :=
  unfold newPromise, setTimeout, clearTimeout, deleteActive, setActive,
    setLastUse, wrappedEnd, releaseWithoutError, release, startQuery,
    useConnection, acquired, noIdle, addConnectionToPool, rejectTimeout in *.

Ltac unfold_handlers :=
  unfold run_callback, handleRequest, pool_end, activatePool, onRejected, pinged,
    queried, useConnectionPromise, useConnectionCallback, taskQueryCallback,
    taskQueryPromise, rolledBack, rollbackOk, rollbackFailed, wrappedDestroy,
    onError, connected, connectOk, connectFailed, overlayNewConnection, runTick,
    rejectAndResetTimeout, settle, settleEnd, promiseAll in *.

Ltac loops :=
  repeat first
    [ rewrite resetTimeoutToNextTask_eq
    | rewrite getIdleValidConnection_eq
    | rewrite resetTimeoutLoop_eq by reflexivity
    | rewrite getIdleValidConnectionFrom_eq by reflexivity
    | rewrite drainIdle_eq by reflexivity
    | rewrite forallb_ending
    | rewrite (errorScan_eq _ _ []) by reflexivity ].

Ltac case_atom :=
  match goal with
  | |- context [match ?x with _ => _ end] =>
      lazymatch x with
      | context [match _ with _ => _ end] => fail
      | context [drainIdle] => fail
      | context [resetTimeoutLoop] => fail
      | context [resetTimeoutToNextTask] => fail
      | context [getIdleValidConnection] => fail
      | context [getIdleValidConnectionFrom] => fail
      | context [errorScan] => fail
      | context [acquireFrom] => fail
      | context [handleTaskQueue] => fail
      | context [checkPoolSize] => fail
      | _ => destruct x eqn:?
      end
  end.

Ltac simp_with tac :=
  repeat progress
    (unfold_handlers; unfold_leaf; unfold_monad; cbn in *; loops;
     autorewrite with frame; unfold afterError; tac).

Tactic Notation "go" "with" tactic3(tac) :=
  repeat (simp_with tac; try case_atom; simplify_eq/=; try congruence).

Ltac go := go with idtac.

(** ** Summaries of the handlers that serve requests *)

Lemma reset_counts p now q :
  (count (task_is p) (unexpiredTasks now q)
   + count (tick_is p) (map (fun t => TickReject t timeoutError) (expiredTasks now q))
   = count (task_is p) q)%nat.
Proof.
  induction q as [|t q IH]; cbn; [reflexivity|].
  destruct (timeout t <? now); cbn; lia.
Qed.

Lemma afterReset_tasks p now s :
  (count (task_is p) (taskQueue (afterReset now s))
   + count (tick_is p) (tickQueue (afterReset now s))
   = count (task_is p) (taskQueue s) + count (tick_is p) (tickQueue s))%nat.
Proof.
  pose proof (reset_counts p now (taskQueue s)) as H. unfold afterReset.
  destruct (unexpiredTasks now (taskQueue s)), (expiredTasks now (taskQueue s));
    cbn in *; rewrite ?count_app; cbn; lia.
Qed.

Lemma afterReset_creations now s :
  count is_creation (tickQueue (afterReset now s)) = count is_creation (tickQueue s).
Proof.
  unfold afterReset.
  destruct (unexpiredTasks now (taskQueue s)), (expiredTasks now (taskQueue s));
    cbn; rewrite ?count_app, ?app_nil_r; cbn; rewrite ?count_creation_reject; lia.
Qed.

Lemma afterReset_occ p now s : occ p (afterReset now s) = occ p s.
Proof.
  unfold occ, waiting, settled. autorewrite with frame.
  pose proof (afterReset_tasks p now s). lia.
Qed.

Lemma afterReset_total now s : totalConnections (afterReset now s) = totalConnections s.
Proof.
  unfold totalConnections, poolActiveConnections, poolIdleConnections.
  now autorewrite with frame.
Qed.

Lemma afterReset_timer_ok now s : timers s = [] -> timer_ok (afterReset now s).
Proof.
  intros Ht. unfold timer_ok, afterReset. rewrite Ht.
  destruct (unexpiredTasks now (taskQueue s)), (expiredTasks now (taskQueue s));
    cbn; eauto.
Qed.

Lemma afterReset_quiet now s : quiet s (afterReset now s).
Proof.
  unfold quiet. rewrite afterReset_total, afterReset_creations.
  autorewrite with frame. repeat split; auto; lia.
Qed.

#[export] Hint Rewrite afterReset_occ afterReset_total afterReset_creations : frame.

Lemma quiet_refl s : quiet s s.
Proof. unfold quiet. repeat split; auto; lia. Qed.

Lemma quiet_trans s1 s2 s3 : quiet s1 s2 -> quiet s2 s3 -> quiet s1 s3.
Proof.
  unfold quiet. intros H1 H2.
  destruct H1 as (?&?&?&?&?&?&?&?&?&?&Hi1), H2 as (?&?&?&?&?&?&?&?&?&?&Hi2).
  do 10 (split; [congruence || lia|]).
  intros Hi. destruct (Hi1 Hi) as [Hi' Ha]. destruct (Hi2 Hi') as [? Ha'].
  split; [assumption|]. etransitivity; eauto.
Qed.

Ltac count_tac :=
  unfold occ, waiting, settled, pendingEnd, push in *; cbn in *;
  rewrite ?count_app, ?count_settles_rollback, ?count_awaits_forget,
    ?count_awaits_drained in *;
  cbn in *.

Ltac eqb_cases :=
  unfold request_is, ping_is, task_is, tick_is, query_is, settles, cont_promise,
    same_task in *;
  cbn in *;
  repeat match goal with
  | |- context [Nat.eqb ?a ?b] => destruct (Nat.eqb_spec a b)
  | H : context [Nat.eqb ?a ?b] |- _ => destruct (Nat.eqb_spec a b)
  end; subst; try lia.

Ltac rewrite_eqs :=
  repeat match goal with
  | H : ?x = _ |- context [?x] =>
      lazymatch x with
      | _ _ => progress rewrite H
      end
  | H : ?x = _, H' : context [?x] |- _ =>
      lazymatch x with
      | _ _ => progress rewrite H in H'
      end
  end.

Lemma evict_length conn idle : (length (evict conn idle) <= length idle)%nat.
Proof.
  induction idle as [|c idle IH]; cbn; [lia|].
  destruct (same_conn c conn); cbn; lia.
Qed.

Ltac size_fact t lem :=
  pose proof lem; generalize dependent t; intros.

Ltac size_facts :=
  repeat match goal with
  | |- context [size (<[?k:=?c]> ?a)] =>
      size_fact (size (<[k:=c]> a)) (size_insert_le a k c)
  | H : context [size (<[?k:=?c]> ?a)] |- _ =>
      size_fact (size (<[k:=c]> a)) (size_insert_le a k c)
  | |- context [size (delete ?k ?a)] =>
      size_fact (size (delete k a)) (size_delete_le a k)
  | H : context [size (delete ?k ?a)] |- _ =>
      size_fact (size (delete k a)) (size_delete_le a k)
  | |- context [size (dropActive ?d ?a)] =>
      size_fact (size (dropActive d a)) (size_dropActive_le d a)
  | H : context [size (dropActive ?d ?a)] |- _ =>
      size_fact (size (dropActive d a)) (size_dropActive_le d a)
  | |- context [length (evict ?c ?l)] =>
      size_fact (length (evict c l)) (evict_length c l)
  end.

Ltac sizes :=
  unfold totalConnections, poolActiveConnections, poolIdleConnections, push in *;
  cbn in *; autorewrite with frame in *; cbn in *; rewrite_eqs;
  rewrite ?length_app in *; cbn in *; size_facts.

Lemma handleTaskQueue_quiet now s : quiet s (state_of (handleTaskQueue now s)).
Proof.
  unfold quiet, handleTaskQueue. go; autorewrite with frame; cbn;
    rewrite ?count_app; cbn.
  all: do 10 (split; [try first [reflexivity | sizes; lia]|]).
  all: try discriminate; auto.
Qed.

Lemma handleTaskQueue_occ p now s :
  (occ p (state_of (handleTaskQueue now s)) <= occ p s)%nat.
Proof.
  unfold handleTaskQueue, occ, waiting, settled. go.
  all: autorewrite with frame; cbn.
  all: repeat match goal with
       | |- context [taskQueue (afterReset ?n ?s)] =>
           pose proof (afterReset_tasks p n s); cbn in *;
           generalize dependent (taskQueue (afterReset n s));
           generalize dependent (tickQueue (afterReset n s)); intros
       end.
  all: rewrite_eqs; count_tac; eqb_cases.
Qed.

Lemma filter_timer_ok s n :
  timer_ok s -> firstTaskTimeout s = Some n ->
  List.filter (fun t => negb (Nat.eqb (timer_id t) n)) (timers s) = [].
Proof.
  intros [Ht|(t & Ht & Hf)] Hn; rewrite Ht; cbn; [reflexivity|].
  rewrite Hn in Hf. inversion Hf; subst. now rewrite Nat.eqb_refl.
Qed.

Lemma timer_ok_none s : timer_ok s -> firstTaskTimeout s = None -> timers s = [].
Proof. intros [Ht|(t & Ht & Hf)] Hn; [assumption|congruence]. Qed.

Lemma handleTaskQueue_timer_ok now s :
  timer_ok s -> timer_ok (state_of (handleTaskQueue now s)).
Proof.
  intros Hok. unfold handleTaskQueue. go.
  all: try rewrite (filter_timer_ok s _ Hok) by assumption.
  all: first [ apply afterReset_timer_ok; cbn; eauto using timer_ok_none
             | left; cbn; eauto using timer_ok_none ].
Qed.

Lemma handleTaskQueue_ok now s :
  idleConnections s <> [] \/ taskQueue s = [] ->
  exists s', handleTaskQueue now s = Ok tt s'.
Proof.
  intros H. unfold handleTaskQueue. go; eauto.
  all: destruct H; congruence.
Qed.

(** [getIdleValidConnection] *)

Lemma acquireFrom_ok now isValid k s :
  exists s', acquireFrom now isValid k s = Ok tt s'.
Proof. unfold acquireFrom. go; eauto. Qed.

Lemma acquireFrom_quiet now isValid k s :
  quiet s (state_of (acquireFrom now isValid k s)).
Proof.
  unfold quiet, acquireFrom.
  pose proof (validate_split s now isValid (idleConnections s)) as Hsplit.
  go.
  all: do 10 (split; [try first [reflexivity | sizes; lia]|]).
  all: try (intros Hi; rewrite Hi in *; cbn in *).
  all: try solve [destruct dropped; discriminate].
  all: try solve [subst; cbn; split; [reflexivity|apply dropActive_subseteq]].
  all: try solve [split; reflexivity].
Qed.

Lemma acquireFrom_occ p now isValid k s :
  (occ p (state_of (acquireFrom now isValid k s))
   <= occ p s + (if holds k p then 1 else 0))%nat.
Proof.
  unfold acquireFrom, holds, occ, waiting, settled. go.
  all: count_tac; eqb_cases.
Qed.

Lemma acquireFrom_timers now isValid k s :
  timers (state_of (acquireFrom now isValid k s)) = timers s /\
  firstTaskTimeout (state_of (acquireFrom now isValid k s)) = firstTaskTimeout s /\
  taskQueue (state_of (acquireFrom now isValid k s)) = taskQueue s.
Proof. unfold acquireFrom. go; auto. Qed.

(** [checkPoolSize] *)

Lemma checkPoolSize_cases this s :
  checkPoolSize this s = Ok tt s \/
  (checkPoolSize this s = Throw (TypeError "this.totalConnections") s /\
   connectionInCreation s = false /\ this = false) \/
  (checkPoolSize this s = Ok tt (grown this s) /\
   connectionInCreation s = false /\ this = true /\
   totalConnections s < connectionLimit (opts s)).
Proof.
  unfold checkPoolSize, grown. unfold_monad. cbn.
  destruct (connectionInCreation s); [auto|].
  destruct this; cbn; [|auto].
  destruct (totalConnections s <? connectionLimit (opts s)) eqn:E; [|auto].
  right; right. repeat split; auto. lia.
Qed.

Arguments handleTaskQueue : simpl never.
Arguments checkPoolSize : simpl never.
Arguments acquireFrom : simpl never.

Ltac check_pool_size :=
  match goal with
  | |- context [checkPoolSize ?t ?s] =>
      let H := fresh "Hcps" in
      destruct (checkPoolSize_cases t s) as [H|[(H & ? & ?)|(H & ? & ? & ?)]];
      rewrite H; clear H; unfold grown in *
  end.

Ltac acquire_from p :=
  match goal with
  | |- context [acquireFrom ?n ?v ?k ?s] =>
      let Hok := fresh "Hok" in
      pose proof (acquireFrom_quiet n v k s);
      pose proof (acquireFrom_occ p n v k s);
      pose proof (acquireFrom_timers n v k s);
      destruct (acquireFrom_ok n v k s) as [? Hok];
      rewrite Hok in *; clear Hok; cbn [state_of] in *
  end.

Ltac handle_task_queue p :=
  match goal with
  | |- context [handleTaskQueue ?n ?s] =>
      pose proof (handleTaskQueue_quiet n s);
      pose proof (handleTaskQueue_occ p n s);
      pose proof (handleTaskQueue_timer_ok n s);
      pose proof (handleTaskQueue_ok n s);
      destruct (handleTaskQueue n s) as [[] ?|? ?]; cbn [state_of] in *
  end.

Ltac run_with p tac :=
  repeat (simp_with tac;
          try first [check_pool_size | acquire_from p | handle_task_queue p
                    | case_atom];
          simplify_eq/=; try congruence).

(** ** Every promise is referenced at most once *)

Ltac use_extract p :=
  repeat match goal with
  | H : extract _ (rejected _) = Some _ |- _ =>
      apply (extract_count (request_is p)) in H
  | H : extract _ (pinging _) = Some _ |- _ =>
      apply (extract_count (ping_is p)) in H
  | H : extract _ (querying _) = Some _ |- _ =>
      apply (extract_count (query_is p)) in H
  | H : extract _ (rollingBack _) = Some _ |- _ =>
      apply (extract_count (awaits p)) in H
  | H : existsb (awaits _) _ = false |- _ => apply existsb_false_count in H
  | H : existsb (awaits _) _ = true |- _ => apply existsb_true_count in H
  end.

Ltac use_quiet :=
  repeat match goal with
  | H : quiet _ _ |- _ =>
      let Hn := fresh "Hnext" in let Hrb := fresh "Hrb" in
      destruct H as (_&_&_&_&_&_&Hn&Hrb&_); cbn in Hn, Hrb
  end.

Ltac use_reset p :=
  repeat match goal with
  | |- context [taskQueue (afterReset ?n ?s)] =>
      let H := fresh "Hreset" in
      pose proof (afterReset_tasks p n s) as H; cbn in H;
      generalize dependent (taskQueue (afterReset n s));
      generalize dependent (tickQueue (afterReset n s)); intros
  end.

Ltac occ_finish p :=
  use_extract p; use_quiet; unfold holds in *; count_tac; rewrite_eqs; use_reset p;
  count_tac;
  repeat (case_match; cbn in *; simplify_eq/=);
  eqb_cases;
  first [ left; split; [congruence | lia]
        | right; split; [congruence | split; [|intros ?]; lia] ].

Lemma occ_step e s p : occ_ok e s p.
Proof.
  unfold occ_ok, occ, waiting, settled.
  destruct e; unfold step.
  all: run_with p idtac; occ_finish p.
Qed.

Lemma promises_ok_step e s : promises_ok s -> promises_ok (step e s).
Proof.
  intros H p. destruct (H p) as [H1 H2].
  destruct (occ_step e s p) as [[Hn Ho]|(Hn & Ho & Hne)]; rewrite Hn.
  - split; [lia|]. intros. apply H2. lia.
  - destruct (Nat.eq_dec p (nextPromise s)) as [->|Hp].
    + assert (occ (nextPromise s) s = 0)%nat.
      { destruct (H (nextPromise s)) as [_ Hlt].
        destruct (occ (nextPromise s) s); [reflexivity|]. exfalso.
        assert (nextPromise s < nextPromise s)%nat by (apply Hlt; lia). lia. }
      split; lia.
    + specialize (Hne Hp). split; [lia|]. intros.
      assert (p < nextPromise s)%nat by (apply H2; lia). lia.
Qed.

Lemma promises_ok_new o cb : promises_ok (newPool o cb).
Proof. intros p. cbn. split; [lia|]. unfold occ, waiting, settled. cbn. lia. Qed.

Lemma promises_ok_reachable allowed o cb s :
  Reachable allowed (newPool o cb) s -> promises_ok s.
Proof.
  induction 1; [apply promises_ok_new|now apply promises_ok_step].
Qed.

(** A promise that is referenced nowhere is never settled. *)
Lemma forgotten_step e s p :
  (p < nextPromise s)%nat -> occ p s = 0%nat ->
  (p < nextPromise (step e s))%nat /\ occ p (step e s) = 0%nat.
Proof.
  intros Hp H0.
  destruct (occ_step e s p) as [[Hn Ho]|(Hn & Ho & Hne)]; rewrite Hn.
  - split; lia.
  - assert (p <> nextPromise s) by lia. specialize (Hne ltac:(assumption)).
    split; lia.
Qed.

Lemma forgotten_run es : forall s p,
  (p < nextPromise s)%nat -> occ p s = 0%nat ->
  occ p (run es s) = 0%nat.
Proof.
  induction es as [|e es IH]; intros s p Hp H0; cbn; [assumption|].
  destruct (forgotten_step e s p Hp H0). now apply IH.
Qed.

Ltac open_quiet :=
  repeat match goal with
  | H : quiet _ _ |- _ =>
      let Ho := fresh "Hopts" in let Hcb := fresh "Hcb" in
      let Hcl := fresh "Hclosed" in let Hfl := fresh "Hflag" in
      let Hcon := fresh "Hconn" in let Hcre := fresh "Hcre" in
      let Hn := fresh "Hnext" in let Hrb := fresh "Hrb" in
      let Hlu := fresh "Hlu" in let Htot := fresh "Htot" in
      let Hidle := fresh "Hidle" in
      destruct H as (Ho & Hcb & Hcl & Hfl & Hcon & Hcre & Hn & Hrb & Hlu & Htot & Hidle);
      cbn in Ho, Hcb, Hcl, Hfl, Hcon, Hcre, Hn, Hrb, Hlu, Hidle
  end.

(** ** Once closed, the pool holds no idle session and gains none *)

Lemma closed_step e s :
  closed s = true -> idleConnections s = [] ->
  closed (step e s) = true /\ idleConnections (step e s) = [] /\
  activeConnections (step e s) ⊆ activeConnections s.
Proof.
  intros Hc Hi.
  assert (Hd : forall k, delete k (activeConnections s) ⊆ activeConnections s).
  { intros; apply delete_subseteq. }
  destruct e; unfold step.
  all: run_with 0%nat ltac:(rewrite ?Hc, ?Hi); open_quiet.
  all: try match goal with
       | H : ?i = [] -> _ |- _ =>
           let H1 := fresh in let H2 := fresh in
           destruct (H ltac:(first [reflexivity | assumption])) as [H1 H2]
       end.
  all: repeat split; try congruence; auto.
  all: try solve [etransitivity; eauto].
Qed.

Lemma closing_step e s :
  closed s = false -> closed (step e s) = true -> idleConnections (step e s) = [].
Proof.
  intros Hc. destruct e; unfold step.
  all: run_with 0%nat ltac:(rewrite ?Hc); open_quiet; auto; congruence.
Qed.

Lemma closed_idle_step e s :
  (closed s = true -> idleConnections s = []) ->
  closed (step e s) = true -> idleConnections (step e s) = [].
Proof.
  intros H. destruct (closed s) eqn:Hc.
  - intros _. apply closed_step; auto.
  - now apply closing_step.
Qed.

Lemma closed_idle_reachable allowed o cb s :
  Reachable allowed (newPool o cb) s -> closed s = true -> idleConnections s = [].
Proof.
  induction 1 as [|s e Hr IH Ha]; [discriminate|]. now apply closed_idle_step.
Qed.

Lemma closed_run es : forall s,
  closed s = true -> idleConnections s = [] ->
  closed (run es s) = true /\ idleConnections (run es s) = [] /\
  activeConnections (run es s) ⊆ activeConnections s.
Proof.
  induction es as [|e es IH]; intros s Hc Hi; cbn; [auto|].
  destruct (closed_step e s Hc Hi) as (Hc' & Hi' & Ha').
  destruct (IH _ Hc' Hi') as (? & ? & ?). repeat split; auto.
  etransitivity; eauto.
Qed.

(** ** One live timer *)

Lemma extract_timer_ok s q t rest :
  timer_ok s -> extract q (timers s) = Some (t, rest) -> rest = [].
Proof.
  intros [Ht|(t' & Ht & _)] H; rewrite Ht in H; [discriminate|].
  now apply extract_singleton in H.
Qed.

Lemma timer_ok_ext s s' :
  timers s' = timers s -> firstTaskTimeout s' = firstTaskTimeout s ->
  timer_ok s -> timer_ok s'.
Proof. unfold timer_ok. intros -> ->. auto. Qed.

Ltac timer_base Hok :=
  first [ exact Hok
        | left; cbn; solve [eauto using timer_ok_none]
        | apply afterReset_timer_ok; cbn; solve [eauto using timer_ok_none] ].

Ltac timer_finish Hok :=
  try match goal with
  | H : extract _ (timers _) = Some _ |- _ =>
      apply (extract_timer_ok _ _ _ _ Hok) in H; subst
  end;
  try match goal with
  | H : firstTaskTimeout ?s = Some ?n |- _ =>
      rewrite (filter_timer_ok s n Hok H) in *
  end;
  repeat match goal with
  | H : timers ?x = timers _ /\ firstTaskTimeout ?x = _ /\ _ |- _ =>
      let H1 := fresh in let H2 := fresh in
      destruct H as (H1 & H2 & _); cbn in H1, H2;
      assert (timer_ok x) by (apply (timer_ok_ext _ x H1 H2); timer_base Hok);
      clear H1 H2
  | H : timer_ok _ -> timer_ok ?x |- _ =>
      let H' := fresh in
      assert (H' : timer_ok x) by (apply H; first [timer_base Hok | assumption]);
      clear H
  end;
  first
    [ timer_base Hok
    | assumption
    | match goal with H : timer_ok ?x |- _ => exact H end
    | right; cbn;
      match goal with H : firstTaskTimeout _ = None |- _ =>
        rewrite (timer_ok_none _ Hok H) end; cbn; solve [eauto] ].

Lemma timer_ok_step e s : timer_ok s -> timer_ok (step e s).
Proof.
  intros Hok. destruct e; unfold step.
  all: run_with 0%nat ltac:(idtac); timer_finish Hok.
Qed.

Lemma timer_ok_reachable allowed o cb s :
  Reachable allowed (newPool o cb) s -> timer_ok s.
Proof.
  induction 1; [now left|now apply timer_ok_step].
Qed.

(** ** Capacity *)








(** ** The head of the task queue owns the deadline timer *)
















Lemma opts_step e s : opts (step e s) = opts s /\ useCallback (step e s) = useCallback s.
Proof.
  destruct e; unfold step.
  all: run_with 0%nat ltac:(idtac); open_quiet; auto; split; congruence.
Qed.

Lemma opts_reachable allowed o cb s :
  Reachable allowed (newPool o cb) s -> opts s = o /\ useCallback s = cb.
Proof.
  induction 1 as [|s e Hr [IH1 IH2] Ha]; [auto|].
  destruct (opts_step e s). split; congruence.
Qed.




Lemma reachable_run allowed s0 es :
  (forall s e, allowed s e) ->
  forall s, Reachable allowed s0 s -> Reachable allowed s0 (run es s).
Proof.
  intros Hall. induction es as [|e es IH]; intros s Hr; cbn; [assumption|].
  apply IH. now constructor.
Qed.

Lemma same_conn_refl conn : same_conn conn conn = true.
Proof. unfold same_conn. apply Nat.eqb_refl. Qed.

(** What [checkPoolSize.apply(this)] does after a session has left. *)
Lemma checkPoolSize_effect this s :
  let s' := state_of (checkPoolSize this s) in
  idleConnections s' = idleConnections s /\
  activeConnections s' = activeConnections s /\
  lastUse s' = lastUse s /\ taskQueue s' = taskQueue s /\ log s' = log s /\
  rollingBack s' = rollingBack s /\
  tickQueue s' =
    tickQueue s ++
    (if negb (connectionInCreation s) && this
        && (totalConnections s <? connectionLimit (opts s))
     then [TickAddConnection true] else []) /\
  (checkPoolSize this s = Ok tt s' \/
   checkPoolSize this s = Throw (TypeError "this.totalConnections") s' /\
   negb (connectionInCreation s) && negb this = true).
Proof.
  unfold checkPoolSize. unfold_monad. cbn.
  destruct (connectionInCreation s), this; cbn; rewrite ?app_nil_r; auto 10.
  destruct (totalConnections s <? connectionLimit (opts s)); cbn;
    rewrite ?app_nil_r; auto 10.
Qed.

(** ** The end of a rollback *)

Lemma settleEnd_eq k outcome s :
  settleEnd k outcome s = Ok tt (endDelivered k outcome s).
Proof.
  unfold settleEnd, endDelivered, endSettled, endFollowers. unfold_monad.
  destruct k as [| |p n]; cbn.
  1,2: f_equal; pool_ext; now rewrite app_nil_r.
  destruct outcome as [e|]; cbn; [reflexivity|].
  destruct (existsb (awaits p) (rollingBack s)); f_equal; pool_ext;
    now rewrite app_nil_r.
Qed.

Lemma rollback_ok_step s c conn k rest now :
  extract (fun x => is_conn c (fst x)) (rollingBack s) = Some ((conn, k), rest) ->
  step (EvRollback c true now) s =
    (if useCallback s then fun s1 => s1 else endDelivered k None)
      (if closed s then terminated conn rest now s else recycled conn rest now s).
Proof.
  intros He. unfold step. rewrite He.
  unfold run_callback, rolledBack, settle, rollbackOk, setLastUse, deleteActive.
  unfold_monad. cbn.
  destruct (useCallback s), (closed s) eqn:Hc; cbn; rewrite ?Hc; cbn;
    rewrite ?settleEnd_eq; reflexivity.
Qed.

Lemma checkPoolSize_thrown this s :
  checkPoolSize this s =
    match thrown this s with
    | Some e => Throw e s
    | None => Ok tt (state_of (checkPoolSize this s))
    end.
Proof.
  unfold thrown, checkPoolSize. unfold_monad. cbn.
  destruct (connectionInCreation s), this; cbn; try reflexivity.
  destruct (totalConnections s <? connectionLimit (opts s)); reflexivity.
Qed.

Lemma rollback_failed_step s c conn k rest now :
  extract (fun x => is_conn c (fst x)) (rollingBack s) = Some ((conn, k), rest) ->
  step (EvRollback c false now) s =
    let s1 := state_of (checkPoolSize (self conn) (discarded conn rest s)) in
    if useCallback s then
      match thrown (self conn) s with
      | Some e => set_log (log s1 ++ [Uncaught e]) s1
      | None => s1
      end
    else endDelivered k (thrown (self conn) s) s1.
Proof.
  intros He. unfold step. rewrite He.
  unfold run_callback, rolledBack, settle, rollbackFailed, deleteActive.
  unfold_monad. cbn.
  pose proof (checkPoolSize_thrown (self conn) (discarded conn rest s)) as Hcp.
  change (thrown (self conn) (discarded conn rest s)) with (thrown (self conn) s)
    in Hcp.
  destruct (useCallback s); cbn;
    match goal with
    | |- context [checkPoolSize (self conn) ?x] =>
        change x with (discarded conn rest s)
    end;
    destruct (checkPoolSize (self conn) (discarded conn rest s)) as [[] s1|e s1],
      (thrown (self conn) s) as [e'|]; try discriminate; inversion Hcp; subst;
    cbn; rewrite ?settleEnd_eq; reflexivity.
Qed.

(** ** Closing the pool *)


Lemma acquire_closed q vs now isValid s :
  closed s = true ->
  run_callback (handleRequest q vs now isValid) s = rejectedClosed s.
Proof. intros Hc. unfold rejectedClosed. go with (rewrite ?Hc); reflexivity. Qed.


Lemma connect_closed c pool rest tid now s :
  closed s = true ->
  extract (fun x => Nat.eqb (fst x) c) (connecting s) = Some ((c, pool), rest) ->
  step (EvConnect c (Some tid) now) s =
    set_log (log s ++ [CallEndNew c]) (set_connecting rest s).
Proof.
  intros Hc He. unfold step. rewrite He. go with (rewrite ?Hc); reflexivity.
Qed.

(** C6. Closed-pool invariant: once [closed] is true it stays true, the
    idle queue is and stays empty and the active set only shrinks, whatever
    events follow; a creation that completes then ends the new connection
    instead of adding it, and every later [getConnection] or [query]
    rejects at once with the pool-closed error, the task queue
    untouched. *)
Theorem closed_pool_invariant o cb s es :
  Reachable any_event (newPool o cb) s -> closed s = true ->
  let s' := run es s in
  closed s' = true /\ idleConnections s' = [] /\
  activeConnections s' ⊆ activeConnections s /\
  (forall c pool rest tid now,
     extract (fun x => Nat.eqb (fst x) c) (connecting s') = Some ((c, pool), rest) ->
     step (EvConnect c (Some tid) now) s' =
       set_log (log s' ++ [CallEndNew c]) (set_connecting rest s')) /\
  (forall now isValid, step (EvGetConnection now isValid) s' = rejectedClosed s') /\
  (forall q vs now isValid, step (EvQuery q vs now isValid) s' = rejectedClosed s') /\
  taskQueue (rejectedClosed s') = taskQueue s'.
Proof.
  intros Hr Hc s'.
  pose proof (closed_idle_reachable _ _ _ _ Hr Hc) as Hi.
  destruct (closed_run es s Hc Hi) as (Hc' & Hi' & Ha').
  fold s' in Hc', Hi', Ha'.
  repeat split; auto.
  - intros. eapply connect_closed; eauto.
  - intros. now apply acquire_closed.
  - intros. now apply acquire_closed.
Qed.

Lemma count_pos_in {A} (f : A -> bool) l x :
  In x l -> f x = true -> (1 <= count f l)%nat.
Proof.
  induction l as [|y l IH]; cbn; [tauto|]. intros [->|H] Hf.
  - rewrite Hf. lia.
  - specialize (IH H Hf). lia.
Qed.

Lemma task_is_refl t : task_is (task_promise t) t = true.
Proof. apply Nat.eqb_refl. Qed.

(** A queued waiter is referenced by the task queue only. *)
Lemma queued_once s t :
  promises_ok s -> In t (taskQueue s) ->
  let p := task_promise t in
  (p < nextPromise s)%nat /\ settled p s = 0%nat /\
  (waiting p s = count (task_is p) (taskQueue s)) /\ occ p s = 1%nat.
Proof.
  intros Hok Hin p. destruct (Hok p) as [H1 H2].
  pose proof (count_pos_in (task_is p) _ _ Hin (task_is_refl t)) as Hc.
  unfold occ, waiting in *. repeat split; try lia; apply H2; lia.
Qed.



(** ** Serving the task queue *)

Lemma handleTaskQueue_throws now s task rest :
  taskQueue s = task :: rest -> idleConnections s = [] ->
  handleTaskQueue now s =
    Throw (TypeError "conn.threadId") (set_taskQueue rest (timerCleared s)).
Proof.
  intros Hq Hi. unfold handleTaskQueue, timerCleared.
  go with (rewrite ?Hq, ?Hi); reflexivity.
Qed.

Lemma stranded_forgotten s task rest :
  promises_ok s -> taskQueue s = task :: rest ->
  let s' := set_log (log (timerCleared s) ++ [Uncaught (TypeError "conn.threadId")])
              (set_taskQueue rest (timerCleared s)) in
  forall ticks,
    (task_promise task < nextPromise (set_tickQueue ticks s'))%nat /\
    (tickQueue s = TickHandleTaskQueue :: ticks ->
     occ (task_promise task) (set_tickQueue ticks s') = 0%nat).
Proof.
  intros Hok Hq s' ticks.
  assert (Hin : In task (taskQueue s)) by (rewrite Hq; now left).
  destruct (queued_once s task Hok Hin) as (Hp & Hs & Hw & Ho).
  subst s'. unfold timerCleared.
  split.
  - destruct (firstTaskTimeout s); cbn; lia.
  - intros Ht. unfold occ, waiting, settled in *. rewrite Hq, Ht in *. cbn in *.
    rewrite task_is_refl in *.
    destruct (firstTaskTimeout s); cbn; rewrite ?count_app; cbn; lia.
Qed.

(** C10. [handleTaskQueue] shifts the task queue before it looks at the
    idle queue: with a task queued it succeeds when a session is idle, and
    with none idle it throws a TypeError after popping the task, whose
    promise is then unsettled and stays so whatever events follow. *)
Theorem handleTaskQueue_needs_idle o cb s now task rest :
  Reachable any_event (newPool o cb) s ->
  taskQueue s = task :: rest ->
  (idleConnections s <> [] -> exists s', handleTaskQueue now s = Ok tt s') /\
  (idleConnections s = [] ->
   handleTaskQueue now s =
     Throw (TypeError "conn.threadId") (set_taskQueue rest (timerCleared s)) /\
   settled (task_promise task) s = 0%nat /\
   forall ticks, tickQueue s = TickHandleTaskQueue :: ticks ->
     count is_uncaught (log (step (EvTick now) s)) = S (count is_uncaught (log s)) /\
     forall es, settled (task_promise task) (run es (step (EvTick now) s)) = 0%nat).
Proof.
  intros Hr Hq. pose proof (promises_ok_reachable _ _ _ _ Hr) as Hok.
  split.
  - intros Hi. apply handleTaskQueue_ok. now left.
  - intros Hi. split; [exact (handleTaskQueue_throws now s task rest Hq Hi)|].
    assert (Hin : In task (taskQueue s)) by (rewrite Hq; now left).
    destruct (queued_once s task Hok Hin) as (Hp & Hs & Hw & Ho).
    split; [assumption|]. intros ticks Ht.
    assert (Hstep : step (EvTick now) s =
      set_tickQueue ticks
        (set_log (log (timerCleared s) ++ [Uncaught (TypeError "conn.threadId")])
           (set_taskQueue rest (timerCleared s)))).
    { unfold step. rewrite Ht. unfold run_callback, runTick.
      rewrite (handleTaskQueue_throws now _ task rest) by (cbn; assumption).
      unfold timerCleared. cbn. destruct (firstTaskTimeout s); pool_ext. }
    rewrite Hstep. split.
    + unfold timerCleared. destruct (firstTaskTimeout s); cbn;
        rewrite ?count_app; cbn; lia.
    + intros es.
      destruct (stranded_forgotten s task rest Hok Hq ticks) as [Hlt H0].
      specialize (H0 Ht).
      pose proof (forgotten_run es _ _ Hlt H0) as Hz. unfold occ in Hz. lia.
Qed.

(** ** The deadline timer *)



Lemma handleTaskQueue_serves now s task rest conn idle' :
  taskQueue s = task :: rest -> idleConnections s = conn :: idle' ->
  handleTaskQueue now s =
    (if truthy (sql task)
     then startQuery conn (sql task) (values task) (QTask task)
     else emit (Resolve (task_promise task) (VConn conn)))
      (served now conn idle' rest s).
Proof.
  intros Hq Hi. unfold handleTaskQueue, served, timerCleared.
  go with (rewrite ?Hq, ?Hi); reflexivity.
Qed.

Lemma queried_eq conn k res s :
  queried conn k res s =
    Ok tt (set_log (log s ++ [CallRollback conn; outcome (cont_promise k) res])
             (set_rollingBack (rollingBack s ++ [(conn, EndIgnored)]) s)).
Proof.
  unfold queried, outcome. destruct k, res; go.
  all: f_equal; pool_ext; now rewrite <- app_assoc.
Qed.

(** C7. When a query the pool ran for a caller completes, in either mode
    and whether the request was served at once or from the task queue, the
    session is released first (the wrapped [end] is called, which starts
    its rollback) and the outcome is then delivered: rows resolve the
    promise, an error rejects it with that same error.  That release
    brings the session back to the pool: when its rollback succeeds the
    session leaves the active set and is appended to the idle queue with
    [lastUse] updated, and a service of the task queue is scheduled (on a
    closed pool its real [end] is called instead); when the rollback fails
    the session is ended and leaves the pool.  Both ways of starting such
    a query register it with the session. *)
Theorem query_released_before_outcome s c conn k rest res :
  extract (fun x => is_conn c (fst x)) (querying s) = Some ((conn, k), rest) ->
  let s1 := step (EvQueryDone c res) s in
  s1 = set_log (log s ++ [CallRollback conn; outcome (cont_promise k) res])
         (set_rollingBack (rollingBack s ++ [(conn, EndIgnored)])
            (set_querying rest s)) /\
  (forall err, outcome (cont_promise k) (inr err) = Reject (cont_promise k) err) /\
  (extract (fun x => is_conn c (fst x)) (rollingBack s) = None ->
   forall now,
     (let s2 := step (EvRollback c true now) s1 in
      idleConnections s2 =
        (if closed s then idleConnections s else idleConnections s ++ [conn]) /\
      tickQueue s2 =
        (if closed s then tickQueue s else tickQueue s ++ [TickHandleTaskQueue]) /\
      activeConnections s2 = delete (threadId conn) (activeConnections s) /\
      lastUse s2 = <[cid conn := Stamp now]> (lastUse s) /\
      rollingBack s2 = rollingBack s /\
      log s2 = log s1 ++ (if closed s then [CallInitialEnd conn] else [])) /\
     (let s3 := step (EvRollback c false now) s1 in
      idleConnections s3 = idleConnections s /\
      activeConnections s3 = delete (threadId conn) (activeConnections s) /\
      rollingBack s3 = rollingBack s /\
      count (terminates conn) (log s3) = S (count (terminates conn) (log s1)))) /\
  (forall r conn' s0, truthy (req_sql r) = true ->
     acquired (Some r) conn' s0 =
       Ok tt (set_querying (querying s0 ++ [(conn', QRequest (promise r))])
                (set_log (log s0 ++ [CallQuery conn' (req_sql r) (req_values r)]) s0))) /\
  (forall now s0 task tasks conn' idle',
     taskQueue s0 = task :: tasks -> idleConnections s0 = conn' :: idle' ->
     truthy (sql task) = true ->
     handleTaskQueue now s0 =
       Ok tt (set_querying (querying (served now conn' idle' tasks s0)
                            ++ [(conn', QTask task)])
                (set_log (log (served now conn' idle' tasks s0)
                          ++ [CallQuery conn' (sql task) (values task)])
                   (served now conn' idle' tasks s0)))).
Proof.
  intros He s1.
  assert (H1 : s1 =
    set_log (log s ++ [CallRollback conn; outcome (cont_promise k) res])
      (set_rollingBack (rollingBack s ++ [(conn, EndIgnored)])
         (set_querying rest s))).
  { subst s1. unfold step. rewrite He. unfold run_callback.
    rewrite queried_eq. reflexivity. }
  clearbody s1. subst s1.
  set (s1 := set_log (log s ++ [CallRollback conn; outcome (cont_promise k) res])
               (set_rollingBack (rollingBack s ++ [(conn, EndIgnored)])
                  (set_querying rest s))).
  split; [reflexivity|]. split; [reflexivity|]. split.
  { intros Hn now.
    assert (Hx : extract (fun x => is_conn c (fst x))
                   (rollingBack s ++ [(conn, EndIgnored)])
                 = Some ((conn, EndIgnored), rollingBack s)).
    { apply extract_last; [assumption|].
      exact (extract_true _ _ _ _ He). }
    split.
    - cbv zeta. rewrite (rollback_ok_step s1 c conn EndIgnored (rollingBack s) now Hx).
      cbn. destruct (useCallback s), (closed s); cbn;
        rewrite ?app_nil_r; repeat split; reflexivity.
    - cbv zeta.
      rewrite (rollback_failed_step s1 c conn EndIgnored (rollingBack s) now Hx).
      cbn.
      match goal with
      | |- context [checkPoolSize (self conn) ?x] =>
          pose proof (checkPoolSize_effect (self conn) x) as Hcp; cbv zeta in Hcp;
          destruct Hcp as (Hi & Ha & _ & _ & Hlog & Hrb & _);
          generalize dependent (state_of (checkPoolSize (self conn) x))
      end.
      intros s3 Hi Ha Hlog Hrb. cbn in Hi, Ha, Hlog, Hrb.
      destruct (useCallback s), (thrown (self conn) _); cbn;
        rewrite ?Hi, ?Ha, ?Hlog, ?Hrb, ?app_nil_r, ?count_app; cbn;
        rewrite ?count_app; cbn; rewrite ?same_conn_refl;
        repeat split; auto; lia. }
  split.
  - intros r conn' s0 Ht. unfold acquired, useConnection. rewrite Ht. reflexivity.
  - intros now s0 task tasks conn' idle' Hq Hi Ht.
    rewrite (handleTaskQueue_serves now s0 task tasks conn' idle' Hq Hi), Ht.
    reflexivity.
Qed.

(** ** Acquisition timeout *)

Lemma onRejected_queues r now s :
  taskQueue (state_of (onRejected r now s)) = taskQueue s ++ [taskOf s r now] /\
  (firstTaskTimeout s = None ->
   timers (state_of (onRejected r now s)) =
     timers s ++ [mkTimer (nextTimer s) (acquireTimeout (opts s)) (taskOf s r now)]).
Proof. unfold onRejected, taskOf. go; split; auto; discriminate. Qed.

Lemma afterReset_queue now s :
  taskQueue (afterReset now s) = unexpiredTasks now (taskQueue s) /\
  tickQueue (afterReset now s) =
    tickQueue s ++ rejections (expiredTasks now (taskQueue s)) /\
  timers (afterReset now s) =
    timers s ++
    match unexpiredTasks now (taskQueue s) with
    | u :: _ => [mkTimer (nextTimer s) (timeout u - now) u]
    | [] => []
    end.
Proof.
  unfold afterReset, rejections.
  destruct (unexpiredTasks now (taskQueue s)), (expiredTasks now (taskQueue s));
    cbn; rewrite ?app_nil_r; auto.
Qed.



Lemma reachable_any o cb es :
  Reachable any_event (newPool o cb) (run es (newPool o cb)).
Proof. apply reachable_run; [exact (fun _ _ => I)|constructor]. Defined.




(** ** Release *)





Example releasing_state :
  taskQueueSize releasing = 1 /\ idleConnections releasing = [] /\
  rollingBack releasing = [(session 0 10, EndCaller)].
Proof. vm_compute. auto. Qed.


(** ** Validation of idle sessions *)

Lemma validate_dropped s now isValid idle :
  match validate s now isValid idle with
  | Exhausted d => dropped_ok s now isValid d
  | Candidate d c ping _ =>
      dropped_ok s now isValid d /\
      if ping then mustPing s now c = true
      else mustPing s now c = false /\ isValid c = true
  end.
Proof.
  unfold dropped_ok. induction idle as [|c idle IH]; cbn; [constructor|].
  destruct (mustPing s now c) eqn:Hp; [split; [constructor|assumption]|].
  destruct (isValid c) eqn:Hv; [split; [constructor|auto]|].
  destruct (validate s now isValid idle) as [d|d c' ping rest].
  - constructor; auto.
  - destruct IH as [IH1 IH2]. split; [constructor; auto|assumption].
Qed.

Lemma ping_failed_promise s c conn k rest now isValid :
  useCallback s = false ->
  extract (fun x => is_conn c (fst x)) (pinging s) = Some ((conn, k), rest) ->
  acquireFrom now isValid k
    (set_activeConnections (delete (threadId conn) (activeConnections s))
       (set_pinging rest s))
  = Ok tt (step (EvPing c false now isValid) s).
Proof.
  intros Hcb He. unfold step. rewrite He. unfold run_callback, pinged.
  unfold deleteActive. unfold_monad. cbn. rewrite Hcb. loops.
  destruct (acquireFrom_ok now isValid k
    (set_activeConnections (delete (threadId conn) (activeConnections s))
       (set_pinging rest s))) as [s' Hs'].
  now rewrite Hs'.
Qed.

(** C4, as amended. In promise mode, when the ping of a session fails the
    session leaves the active set, neither [end] nor [destroy] is called
    on it and nothing is rejected; validation goes on with the next idle
    sessions, front to back, until the idle queue is exhausted (the
    request then falls through to the rejection handler, which queues it)
    or a session is valid or has to be pinged. *)
Theorem failed_ping_retries_next_idle s c conn k rest now isValid :
  useCallback s = false ->
  extract (fun x => is_conn c (fst x)) (pinging s) = Some ((conn, k), rest) ->
  let s' := step (EvPing c false now isValid) s in
  count (terminates conn) (log s') = count (terminates conn) (log s) /\
  count is_rejection (log s') = count is_rejection (log s) /\
  match validate s now isValid (idleConnections s) with
  | Exhausted d =>
      idleConnections s = d /\ dropped_ok s now isValid d /\
      idleConnections s' = [] /\
      activeConnections s' = dropActive d (delete (threadId conn) (activeConnections s)) /\
      rejected s' = rejected s ++ match k with Some r => [r] | None => [] end /\
      pinging s' = rest /\ log s' = log s
  | Candidate d c' ping idle' =>
      idleConnections s = d ++ c' :: idle' /\ dropped_ok s now isValid d /\
      idleConnections s' = idle' /\
      activeConnections s' =
        <[threadId c' := c']>
          (dropActive d (delete (threadId conn) (activeConnections s))) /\
      rejected s' = rejected s /\
      if ping then
        mustPing s now c' = true /\
        pinging s' = rest ++ [(c', k)] /\ log s' = log s ++ [CallPing c']
      else
        isValid c' = true /\
        pinging s' = rest /\ log s' = log s ++ handOver k c'
  end /\
  (forall r now0 s0,
     taskQueue (state_of (onRejected r now0 s0)) = taskQueue s0 ++ [taskOf s0 r now0]).
Proof.
  intros Hcb He s'.
  pose proof (ping_failed_promise s c conn k rest now isValid Hcb He) as Hs.
  fold s' in Hs. revert Hs. generalize s'. clear s'. intros s' Hs.
  pose proof (validate_split s now isValid (idleConnections s)) as Hsplit.
  pose proof (validate_dropped s now isValid (idleConnections s)) as Hdrop.
  unfold acquireFrom in Hs. cbn in Hs.
  rewrite (validate_ext s) in Hs by reflexivity.
  assert (Hq : forall r now0 s0,
    taskQueue (state_of (onRejected r now0 s0)) = taskQueue s0 ++ [taskOf s0 r now0]).
  { intros. apply onRejected_queues. }
  destruct (validate s now isValid (idleConnections s)) as [d|d c' [|] idle'].
  - destruct k as [r|]; cbn in Hs; unfold_monad; inversion Hs; subst s'; cbn;
      rewrite ?app_nil_r; repeat split; auto.
  - destruct Hdrop as [Hd Hp]. inversion Hs; subst s'. cbn.
    rewrite !count_app. cbn. repeat split; auto; lia.
  - destruct Hdrop as [Hd [Hp Hv]].
    destruct k as [r|]; cbn in Hs; unfold handOver.
    + unfold useConnection, startQuery in Hs. unfold_monad.
      destruct (truthy (req_sql r)); cbn in Hs; inversion Hs; subst s'; cbn;
        rewrite !count_app; cbn; repeat split; auto; lia.
    + unfold_monad. inversion Hs; subst s'. cbn. rewrite ?app_nil_r.
      repeat split; auto.
Qed.

Example pinging1_state :
  pinging pinging1 = [(session 0 10, Some (mkRequest 0 None []))] /\
  activeConnections pinging1 = {[ 10 := session 0 10 ]}.
Proof. vm_compute. auto. Qed.

(** C4: after a failed ping the session is in neither set, and neither
    [end] nor [destroy] has been called on it. *)
Lemma failed_ping_does_not_destroy :
  let s := step (EvPing 0 false 2001 allValid) pinging1 in
  activeConnections s = ∅ /\ idleConnections s = [] /\
  count (terminates (session 0 10)) (log s) = 0%nat /\
  log s = [CallConnect 0; CallPing (session 0 10)].
Proof. vm_compute. auto. Qed.

(** ** The ["error"] handler *)

(** C3: the loop stops at the faulty session, so the idle sessions queued
    behind it keep their [lastUse] and are handed out without a ping; the
    sessions in front of it are marked. *)
Theorem error_marks_only_sessions_in_front :
  idleConnections twoIdle = [session 0 10; session 1 11] /\
  totalConnections twoIdle = 2 /\
  (let s := step (EvError (session 0 10)) twoIdle in
   idleConnections s = [session 1 11] /\ totalConnections s = 1 /\
   lastUse s !! 1%nat = Some (Stamp 1001) /\
   mustPing s 1002 (session 1 11) = false /\
   log (step (EvGetConnection 1002 allValid) s)
     = log s ++ [Resolve 0 (VConn (session 1 11))]) /\
  (let s := step (EvError (session 1 11)) twoIdle in
   idleConnections s = [session 0 10] /\ totalConnections s = 1 /\
   lastUse s !! 0%nat = Some (DateObj 0) /\
   mustPing s 1002 (session 0 10) = true /\
   log (step (EvGetConnection 1002 allValid) s)
     = log s ++ [CallPing (session 0 10)]).
Proof. vm_compute. auto 12. Qed.

Lemma onError_marks conn s :
  exists r, onError conn s = r /\
    idleConnections (state_of r) = evict conn (idleConnections s) /\
    lastUse (state_of r) = markStale (scanned conn (idleConnections s)) (lastUse s).
Proof.
  eexists. split; [reflexivity|]. unfold onError.
  run_with 0%nat ltac:(idtac); auto.
Qed.

(** ** Instances *)


Ltac compute_eq := vm_compute; reflexivity.


Lemma failed_ping_retries_next_idle_witness :
  useCallback pinging1 = false /\
  extract (fun x => is_conn 0 (fst x)) (pinging pinging1)
    = Some ((session 0 10, Some (mkRequest 0 None [])), []) /\
  count (terminates (session 0 10))
    (log (step (EvPing 0 false 2001 allValid) pinging1))
  = count (terminates (session 0 10)) (log pinging1) /\
  count is_rejection (log (step (EvPing 0 false 2001 allValid) pinging1))
  = count is_rejection (log pinging1).
Proof.
  assert (Hcb : useCallback pinging1 = false) by compute_eq.
  assert (He : extract (fun x => is_conn 0 (fst x)) (pinging pinging1)
               = Some ((session 0 10, Some (mkRequest 0 None [])), []))
    by compute_eq.
  destruct (failed_ping_retries_next_idle pinging1 0%nat (session 0 10)
              (Some (mkRequest 0 None [])) [] 2001 allValid Hcb He)
    as (H1 & H2 & _).
  split; [exact Hcb|]. split; [exact He|]. split; [exact H1|exact H2].
Defined.




Lemma ended_reachable :
  Reachable any_event (newPool (mkOptions 2 1000 500) false) ended.
Proof. apply reachable_any. Qed.

Lemma closed_pool_invariant_witness :
  Reachable any_event (newPool (mkOptions 2 1000 500) false) ended /\
  closed ended = true /\
  closed
    (run [EvRollback 0 true 1005; EvTick 1005; EvGetConnection 1006 allValid]
       ended) = true /\
  idleConnections
    (run [EvRollback 0 true 1005; EvTick 1005; EvGetConnection 1006 allValid]
       ended) = [].
Proof.
  pose proof ended_reachable as Hr.
  assert (Hc : closed ended = true) by compute_eq.
  destruct (closed_pool_invariant (mkOptions 2 1000 500) false ended
              [EvRollback 0 true 1005; EvTick 1005; EvGetConnection 1006 allValid]
              Hr Hc)
    as (H1 & H2 & _).
  split; [exact Hr|]. split; [exact Hc|]. split; [exact H1|exact H2].
Defined.

Lemma query_released_before_outcome_witness :
  extract (fun x => is_conn 0 (fst x)) (querying querying1)
    = Some ((session 0 10, QRequest 0%nat), []) /\
  extract (fun x => is_conn 0 (fst x)) (rollingBack querying1) = None /\
  (forall err,
     step (EvQueryDone 0 (inr err)) querying1 =
       set_log (log querying1
                ++ [CallRollback (session 0 10);
                    outcome (cont_promise (QRequest 0%nat)) (inr err)])
         (set_rollingBack (rollingBack querying1 ++ [(session 0 10, EndIgnored)])
            (set_querying [] querying1))) /\
  (forall err,
     idleConnections
       (step (EvRollback 0 true 1002) (step (EvQueryDone 0 (inr err)) querying1))
     = (if closed querying1 then idleConnections querying1
        else idleConnections querying1 ++ [session 0 10])).
Proof.
  assert (He : extract (fun x => is_conn 0 (fst x)) (querying querying1)
               = Some ((session 0 10, QRequest 0%nat), [])) by compute_eq.
  assert (Hn : extract (fun x => is_conn 0 (fst x)) (rollingBack querying1) = None)
    by compute_eq.
  split; [exact He|]. split; [exact Hn|]. split; intros err.
  - pose proof (query_released_before_outcome querying1 0%nat (session 0 10)
                  (QRequest 0%nat) [] (inr err) He) as H.
    cbv beta zeta in H. exact (proj1 H).
  - pose proof (query_released_before_outcome querying1 0%nat (session 0 10)
                  (QRequest 0%nat) [] (inr err) He) as H.
    cbv beta zeta in H. destruct H as (_ & _ & H3 & _).
    destruct (H3 Hn 1002) as [(H4 & _) _]. exact H4.
Defined.



Lemma offHead_reachable :
  Reachable protocol (newPool (mkOptions 1 1000 500) false) offHead.
Proof.
  unfold offHead, run. cbn [fold_left].
  repeat (apply reach_step;
          [|first [ exact I | reflexivity
                  | intros conn k rest He; right; vm_compute in He;
                    inversion He; vm_compute; reflexivity ]]).
  constructor.
Qed.

Example offHead_state :
  taskQueue offHead = [mkTask 2003 2 None []; mkTask 2006 4 None []] /\
  timers offHead = [mkTimer 1 1000 (mkTask 2006 4 None [])] /\
  extract (fun t => Nat.eqb (timer_id t) 1) (timers offHead)
    = Some (mkTimer 1 1000 (mkTask 2006 4 None []), []).
Proof. vm_compute. auto. Qed.

Lemma offHead_off_head front :
  peekFront (taskQueue offHead) = Some front ->
  same_task (timer_task (mkTimer 1 1000 (mkTask 2006 4 None []))) front = false.
Proof.
  destruct offHead_state as (Hq & _). rewrite Hq. cbn. intros Hf.
  inversion Hf. reflexivity.
Qed.


(** C9: the timer fires for a waiter that is not the head of the queue in
    a state that a client following the protocol reaches, with the
    deadlines in arrival order: the service of the task queue failed on an
    empty idle queue and left the waiter of promise 2 without a timer, so
    the waiter of promise 4 armed the timer for itself. *)
Lemma timer_fires_off_head :
  Reachable protocol (newPool (mkOptions 1 1000 500) false) offHead /\
  taskQueue offHead = [mkTask 2003 2 None []; mkTask 2006 4 None []] /\
  inArrivalOrder (taskQueue offHead) /\
  timers offHead = [mkTimer 1 1000 (mkTask 2006 4 None [])] /\
  ~ timerAtHead offHead /\
  log (step (EvTimer 1 2006) offHead) =
    log offHead ++ [Uncaught (JsError "Rejection by timeout without task !!!")] /\
  taskQueue (step (EvTimer 1 2006) offHead) = taskQueue offHead.
Proof.
  destruct offHead_state as (Hq & Ht & _).
  split; [exact offHead_reachable|]. split; [exact Hq|]. split.
  { rewrite Hq. cbn. repeat constructor. cbn. lia. }
  split; [exact Ht|]. split.
  { intros H. destruct (H (mkTimer 1 1000 (mkTask 2006 4 None []))) as (front & Hf & Hs).
    - rewrite Ht. now left.
    - rewrite (offHead_off_head front Hf) in Hs. discriminate. }
  split; vm_compute; reflexivity.
Qed.

(** C1: without the protocol or with a limit of 0 the bound fails: a
    session released twice is twice in the idle queue, [activatePool]
    called twice starts two creations, and [activatePool] creates a session
    whatever the limit. *)
Lemma capacity_exceeded_without_protocol :
  (Reachable any_event (newPool (mkOptions 1 1000 500) false) doubleReleased /\
   idleConnections doubleReleased = [session 0 10; session 0 10] /\
   connectionLimit (mkOptions 1 1000 500) < totalConnections doubleReleased) /\
  (Reachable any_event (newPool (mkOptions 1 1000 500) false) activatedTwice /\
   1 < creationsInFlight activatedTwice) /\
  (Reachable protocol (newPool (mkOptions 0 1000 500) false) limitZero /\
   connectionLimit (mkOptions 0 1000 500) < totalConnections limitZero).
Proof.
  assert (H1 : totalConnections doubleReleased = 2) by compute_eq.
  assert (H2 : creationsInFlight activatedTwice = 2) by compute_eq.
  assert (H3 : totalConnections limitZero = 1) by compute_eq.
  split; [|split].
  - split; [apply reachable_any|]. split; [compute_eq|]. rewrite H1. cbn. lia.
  - split; [apply reachable_any|]. rewrite H2. lia.
  - split; [|rewrite H3; cbn; lia].
    unfold limitZero, run. cbn [fold_left].
    repeat (apply reach_step; [|first [exact I | reflexivity]]). constructor.
Qed.

Lemma overtaken_reachable :
  Reachable any_event (newPool (mkOptions 1 1000 500) false) overtaken.
Proof. apply reachable_any. Qed.

Lemma handleTaskQueue_needs_idle_witness :
  Reachable any_event (newPool (mkOptions 1 1000 500) false) overtaken /\
  taskQueue overtaken = [mkTask 2002 1 None []] /\
  idleConnections overtaken = [] /\
  tickQueue overtaken = [TickHandleTaskQueue] /\
  handleTaskQueue 1004 overtaken =
    Throw (TypeError "conn.threadId") (set_taskQueue [] (timerCleared overtaken)) /\
  forall es,
    settled (task_promise (mkTask 2002 1 None []))
      (run es (step (EvTick 1004) overtaken)) = 0%nat.
Proof.
  pose proof overtaken_reachable as Hr.
  assert (Hq : taskQueue overtaken = [mkTask 2002 1 None []]) by compute_eq.
  assert (Hi : idleConnections overtaken = []) by compute_eq.
  assert (Ht : tickQueue overtaken = [TickHandleTaskQueue]) by compute_eq.
  destruct (handleTaskQueue_needs_idle (mkOptions 1 1000 500) false overtaken 1004
              (mkTask 2002 1 None []) [] Hr Hq) as [_ H].
  destruct (H Hi) as (H1 & _ & H3).
  split; [exact Hr|]. split; [exact Hq|]. split; [exact Hi|]. split; [exact Ht|].
  split; [exact H1|]. exact (proj2 (H3 [] Ht)).
Defined.

(** The trace of [overtaken]: the session released by the first caller is
    taken by a third acquisition before the deferred [handleTaskQueue]
    runs; the waiter is then popped and lost. *)
Example overtaken_log :
  log (step (EvTick 1004) overtaken) =
    [CallConnect 0; Resolve 0 (VConn (session 0 10));
     CallRollback (session 0 10); Resolve 2 (VConn (session 0 10));
     ClearTimeout 0; Uncaught (TypeError "conn.threadId")] /\
  taskQueue (step (EvTick 1004) overtaken) = [] /\
  timers (step (EvTick 1004) overtaken) = [].
Proof. vm_compute. auto. Qed.

(** * Further properties of the pool *)

(** ** [resetTimeoutToNextTask] *)

(** X1. [resetTimeoutToNextTask] never throws; it rejects, in order,
    exactly the heads of the task queue whose deadline is passed, keeps the
    others, and arms the timer for the first task kept, with the time left
    to its deadline; sessions and log are untouched. *)
Theorem resetTimeoutToNextTask_rejects_expired_heads now s :
  exists s',
    resetTimeoutToNextTask now s = Ok tt s' /\
    taskQueue s = expiredTasks now (taskQueue s) ++ taskQueue s' /\
    Forall (fun t => timeout t < now) (expiredTasks now (taskQueue s)) /\
    tickQueue s' = tickQueue s ++ rejections (expiredTasks now (taskQueue s)) /\
    match taskQueue s' with
    | u :: _ =>
        now <= timeout u /\
        timers s' = timers s ++ [mkTimer (nextTimer s) (timeout u - now) u] /\
        firstTaskTimeout s' = Some (nextTimer s)
    | [] => timers s' = timers s
    end /\
    idleConnections s' = idleConnections s /\
    activeConnections s' = activeConnections s /\
    log s' = log s.
Proof.
  exists (afterReset now s). split; [apply resetTimeoutToNextTask_eq|].
  destruct (afterReset_queue now s) as (Hq & Ht & Htm).
  rewrite Hq, Ht. split; [apply expired_split|]. split; [apply expired_all|].
  split; [reflexivity|]. split.
  - pose proof (unexpired_head now (taskQueue s)) as Hh. rewrite Htm.
    unfold afterReset.
    destruct (unexpiredTasks now (taskQueue s)) as [|u rest];
      [now rewrite app_nil_r|].
    repeat split; auto.
  - now autorewrite with frame.
Qed.

(** ** The deadline timer *)

(** X2. In every reachable state at most one timer is live, and
    [firstTaskTimeout] holds the handle of the live timer. *)
Theorem one_live_timer allowed o cb s :
  Reachable allowed (newPool o cb) s ->
  (length (timers s) <= 1)%nat /\
  forall t, In t (timers s) -> firstTaskTimeout s = Some (timer_id t).
Proof.
  intros Hr. destruct (timer_ok_reachable _ _ _ _ Hr) as [Ht|(t & Ht & Hf)];
    rewrite Ht; cbn.
  - split; [lia|tauto].
  - split; [lia|]. intros t' [<-|[]]. assumption.
Qed.

(** ** Promises *)

(** X3. In every reachable state a promise returned by the pool has been
    settled at most once, a settled promise is referenced by nothing
    pending, and nothing refers to a promise that is not yet allocated. *)
Theorem promise_settled_at_most_once allowed o cb s p :
  Reachable allowed (newPool o cb) s ->
  (settled p s <= 1)%nat /\
  (settled p s = 1%nat -> waiting p s = 0%nat) /\
  ((nextPromise s <= p)%nat -> settled p s = 0%nat /\ waiting p s = 0%nat).
Proof.
  intros Hr. destruct (promises_ok_reachable _ _ _ _ Hr p) as [H1 H2].
  unfold occ in *. repeat split; lia.
Qed.

(** ** Acquisition from the idle queue *)

Lemma mustPing_ext s s' now conn :
  opts s' = opts s -> lastUse s' = lastUse s ->
  mustPing s' now conn = mustPing s now conn.
Proof. intros Ho Hl. unfold mustPing. now rewrite Ho, Hl. Qed.

Lemma mustPing_spec s now conn :
  mustPing s now conn = true <->
  minDelayValidation (opts s) <= 0 \/ stale s now conn.
Proof.
  unfold mustPing, stale. rewrite orb_true_iff, Z.leb_le. split.
  - intros [H|H]; [now left|right]. destruct (lastUse s !! cid conn) as [t|];
      [|discriminate]. exists t. split; [reflexivity|lia].
  - intros [H|(t & Ht & H)]; [now left|right]. rewrite Ht. lia.
Qed.

(** X4. [getConnection] on an open pool with a session at the front of
    the idle queue takes that session out of the queue and registers it as
    active.  It is pinged exactly when [minDelayValidation] is not positive
    or its last use is older than [minDelayValidation]; nothing is
    delivered until the ping answers.  Otherwise, if [isValid] holds, the
    promise resolves with it at once; if not, the session leaves the pool
    without being ended and the acquisition goes on as on the pool without
    it. *)
Theorem acquire_takes_front_idle s now isValid conn rest :
  closed s = false ->
  idleConnections s = conn :: rest ->
  let s' := step (EvGetConnection now isValid) s in
  let p := nextPromise s in
  (mustPing s now conn = true <->
   minDelayValidation (opts s) <= 0 \/ stale s now conn) /\
  (mustPing s now conn = true ->
   idleConnections s' = rest /\
   activeConnections s' = <[threadId conn := conn]> (activeConnections s) /\
   pinging s' = pinging s ++ [(conn, Some (mkRequest p None []))] /\
   log s' = log s ++ [CallPing conn]) /\
  (mustPing s now conn = false -> isValid conn = true ->
   idleConnections s' = rest /\
   activeConnections s' = <[threadId conn := conn]> (activeConnections s) /\
   pinging s' = pinging s /\
   log s' = log s ++ [Resolve p (VConn conn)]) /\
  (mustPing s now conn = false -> isValid conn = false ->
   s' = step (EvGetConnection now isValid)
          (set_activeConnections (delete (threadId conn) (activeConnections s))
             (set_idleConnections rest s))).
Proof.
  intros Hc Hi s' p. subst s' p. split; [apply mustPing_spec|].
  unfold step, run_callback, handleRequest.
  unfold_leaf; unfold_monad; cbn. rewrite Hc.
  rewrite !getIdleValidConnection_eq. unfold acquireFrom. cbn. rewrite Hi. cbn.
  rewrite (mustPing_ext s (set_nextPromise (S (nextPromise s)) s) now conn)
    by reflexivity.
  split; [|split].
  - intros Hp. rewrite Hp. cbn. auto.
  - intros Hp Hv. rewrite Hp, Hv. cbn. auto.
  - intros Hp Hv. rewrite Hp, Hv. cbn.
    rewrite (validate_ext (set_nextPromise (S (nextPromise s)) s) (set_nextPromise (S (nextPromise s)) (set_activeConnections (delete (threadId conn) (activeConnections s)) (set_idleConnections rest s)))) by reflexivity.
    destruct (validate _ now isValid rest) as [d|d c [|] r]; reflexivity.
Qed.

Lemma request_is_refl r : request_is (promise r) r = true.
Proof. unfold request_is. apply Nat.eqb_refl. Qed.

(** X5. Callback mode: when the ping of the session taken for a request
    fails, the promise of that request is dropped; whatever happens
    afterwards it is neither resolved nor rejected, and the request is
    queued nowhere. *)
Theorem callback_failed_ping_strands_request allowed o s c conn r rest now isValid es :
  Reachable allowed (newPool o true) s ->
  extract (fun x => is_conn c (fst x)) (pinging s) = Some ((conn, Some r), rest) ->
  let s' := run es (step (EvPing c false now isValid) s) in
  settled (promise r) s' = 0%nat /\ waiting (promise r) s' = 0%nat.
Proof.
  intros Hr He s'. subst s'.
  destruct (opts_reachable _ _ _ _ Hr) as [_ Hcb].
  destruct (promises_ok_reachable _ _ _ _ Hr (promise r)) as [H1 H2].
  pose proof (extract_count (ping_is (promise r)) _ _ _ _ He) as Hcount.
  unfold ping_is at 2 in Hcount. cbn in Hcount. rewrite request_is_refl in Hcount.
  assert (Hp : (promise r < nextPromise s)%nat).
  { apply H2. unfold occ, waiting. lia. }
  assert (H0 : occ (promise r) (step (EvPing c false now isValid) s) = 0%nat).
  { unfold step. rewrite He. unfold run_callback, pinged.
    unfold deleteActive. unfold_monad. cbn. rewrite Hcb. loops.
    pose proof (acquireFrom_occ (promise r) now isValid None
      (set_activeConnections (delete (threadId conn) (activeConnections s))
         (set_pinging rest s))) as Ho.
    destruct (acquireFrom_ok now isValid None
      (set_activeConnections (delete (threadId conn) (activeConnections s))
         (set_pinging rest s))) as [s1 Hs1].
    rewrite Hs1 in *. cbn in Ho.
    unfold occ, waiting, settled in *. cbn in *. lia. }
  assert (Hlt : (promise r < nextPromise (step (EvPing c false now isValid) s))%nat).
  { destruct (occ_step (EvPing c false now isValid) s (promise r))
      as [[Hn _]|(Hn & _)]; rewrite Hn; lia. }
  pose proof (forgotten_run es _ _ Hlt H0) as Hf. unfold occ in Hf. lia.
Qed.

(** X6. A query whose SQL text is absent or empty starts no query: it
    acquires a session exactly as [getConnection] does, and the promise is
    resolved with the session itself, whether the session is acquired at
    once or handed over from the task queue. *)
Theorem query_without_sql_acquires_session q vs now isValid s :
  truthy q = false ->
  let s1 := step (EvQuery q vs now isValid) s in
  let s2 := step (EvGetConnection now isValid) s in
  log s1 = log s2 /\ querying s1 = querying s /\
  idleConnections s1 = idleConnections s2 /\
  activeConnections s1 = activeConnections s2 /\
  map fst (pinging s1) = map fst (pinging s2) /\
  map promise (rejected s1) = map promise (rejected s2) /\
  (forall r conn s0, req_sql r = q ->
     acquired (Some r) conn s0 =
       Ok tt (set_log (log s0 ++ [Resolve (promise r) (VConn conn)]) s0)) /\
  (forall now' s0 task rest conn idle',
     taskQueue s0 = task :: rest -> idleConnections s0 = conn :: idle' ->
     sql task = q ->
     handleTaskQueue now' s0 =
       Ok tt (set_log (log (served now' conn idle' rest s0)
                       ++ [Resolve (task_promise task) (VConn conn)])
                (served now' conn idle' rest s0))).
Proof.
  intros Hq s1 s2. subst s1 s2.
  assert (Hacq : forall r conn s0, req_sql r = q ->
     acquired (Some r) conn s0 =
       Ok tt (set_log (log s0 ++ [Resolve (promise r) (VConn conn)]) s0)).
  { intros r conn s0 Hr. unfold acquired. rewrite Hr, Hq. reflexivity. }
  assert (Hserve : forall now' s0 task rest conn idle',
     taskQueue s0 = task :: rest -> idleConnections s0 = conn :: idle' ->
     sql task = q ->
     handleTaskQueue now' s0 =
       Ok tt (set_log (log (served now' conn idle' rest s0)
                       ++ [Resolve (task_promise task) (VConn conn)])
                (served now' conn idle' rest s0))).
  { intros now' s0 task rest conn idle' Ht Hi Hs.
    rewrite (handleTaskQueue_serves now' s0 task rest conn idle' Ht Hi), Hs, Hq.
    reflexivity. }
  unfold step, run_callback, handleRequest. unfold newPromise. unfold_monad. cbn.
  destruct (closed s); [cbn; repeat split; auto|]. loops.
  unfold acquireFrom. cbn.
  destruct (validate _ now isValid (idleConnections s)) as [d|d c [|] rest];
    cbn; unfold acquired; cbn; rewrite ?Hq; unfold_monad; cbn;
    rewrite ?map_app; repeat split; auto.
Qed.

(** ** Creation of sessions *)

(** X7. A session whose creation was started by the rejection handler of
    [handleRequest] (which passes an undefined pool) is put in the idle
    queue when its [connect] succeeds, but [checkPoolSize] then throws a
    TypeError: [handleTaskQueue] is not run, so the waiters stay queued
    with their timer although a session is idle.  This holds in both
    modes. *)
Theorem on_demand_session_skips_waiters s c c' rest tid now :
  closed s = false ->
  extract (fun x => Nat.eqb (fst x) c) (connecting s) = Some ((c', false), rest) ->
  let conn := mkConn c tid false in
  let s' := step (EvConnect c (Some tid) now) s in
  idleConnections s' = idleConnections s ++ [conn] /\
  lastUse s' = <[c := Stamp now]> (lastUse s) /\
  connectionInCreation s' = false /\
  connecting s' = rest /\
  activeConnections s' = activeConnections s /\
  taskQueue s' = taskQueue s /\
  timers s' = timers s /\
  tickQueue s' = tickQueue s /\
  log s' = log s ++ [Uncaught (TypeError "this.totalConnections")].
Proof.
  intros Hc He conn s'. subst conn s'. unfold step. rewrite He.
  unfold run_callback, connected, connectOk, connectFailed, overlayNewConnection,
    checkPoolSize, setLastUse.
  unfold_monad. cbn.
  destruct (useCallback s); cbn; rewrite Hc; cbn; repeat split; reflexivity.
Qed.

(** X10. When [connect] fails no session enters the pool.  If the
    creation was started with the pool at hand and the pool is below its
    limit, a new attempt is scheduled for the next tick, without delay and
    without rejecting any waiter; if it was started by the rejection
    handler of [handleRequest], [checkPoolSize] throws and nothing is
    retried. *)
Theorem failed_connect_retries_on_next_tick s c c' pool rest now :
  extract (fun x => Nat.eqb (fst x) c) (connecting s) = Some ((c', pool), rest) ->
  let s' := step (EvConnect c None now) s in
  let retry := pool && (totalConnections s <? connectionLimit (opts s)) in
  connecting s' = rest /\
  idleConnections s' = idleConnections s /\
  activeConnections s' = activeConnections s /\
  taskQueue s' = taskQueue s /\
  connectionInCreation s' = retry /\
  tickQueue s' = tickQueue s ++ (if retry then [TickAddConnection true] else []) /\
  log s' =
    log s ++ (if pool then [] else [Uncaught (TypeError "this.totalConnections")]) /\
  (retry = true -> tickQueue s = [] ->
   forall now', log (step (EvTick now') s') = log s ++ [CallConnect (nextConn s)]).
Proof.
  intros He s' retry. subst s' retry.
  set (s0 := set_connectionInCreation false (set_connecting rest s)).
  assert (Hs : step (EvConnect c None now) s =
    if pool then
      if totalConnections s <? connectionLimit (opts s) then grown true s0 else s0
    else set_log (log s0 ++ [Uncaught (TypeError "this.totalConnections")]) s0).
  { unfold step. rewrite He.
    unfold run_callback, connected, connectFailed, checkPoolSize.
    unfold_monad. cbn. fold s0.
    change (totalConnections s0) with (totalConnections s).
    destruct (useCallback s), pool; cbn; try reflexivity.
    all: change (totalConnections s0) with (totalConnections s).
    all: destruct (totalConnections s <? connectionLimit (opts s)); reflexivity. }
  rewrite Hs. clear Hs.
  destruct pool; cbn;
    [destruct (totalConnections s <? connectionLimit (opts s)); cbn|];
    rewrite ?app_nil_r; repeat split; try reflexivity; try discriminate.
  intros _ Hq now'. unfold step. cbn. rewrite Hq. reflexivity.
Qed.

(** ** Sessions that leave the pool *)

Lemma endSettled_terminates conn k outcome rest :
  count (terminates conn) (endSettled k outcome rest) = 0%nat.
Proof.
  destruct k as [| |p n], outcome as [e|]; cbn; try reflexivity.
  destruct (existsb (awaits p) rest); reflexivity.
Qed.

(** X8. When the rollback of a release fails, the session leaves the
    active set and never returns to the idle queue, its real [end] is
    called once, no waiter is served, and [checkPoolSize] schedules one
    replacement exactly when no creation is marked, the session knows its
    pool and the pool is below its limit.  When the session does not know
    its pool, the TypeError of [checkPoolSize] escapes from the callback in
    callback mode; in promise mode it only rejects the promise of the
    wrapped [end], so the promise of a [pool.end()] that awaits it is
    rejected with it and stops awaiting the other rollbacks; without the
    TypeError that promise is fulfilled when no other rollback is
    awaited. *)
Theorem failed_rollback_discards_session s c conn k rest now :
  extract (fun x => is_conn c (fst x)) (rollingBack s) = Some ((conn, k), rest) ->
  let s' := step (EvRollback c false now) s in
  rollingBack s' =
    (if useCallback s then rest else endFollowers k (thrown (self conn) s) rest) /\
  activeConnections s' = delete (threadId conn) (activeConnections s) /\
  idleConnections s' = idleConnections s /\
  lastUse s' = lastUse s /\
  taskQueue s' = taskQueue s /\
  tickQueue s' =
    tickQueue s ++
    (if negb (connectionInCreation s) && self conn
        && (totalConnections s' <? connectionLimit (opts s))
     then [TickAddConnection true] else []) /\
  log s' =
    log s ++ CallInitialEnd conn ::
    (if useCallback s
     then if negb (connectionInCreation s) && negb (self conn)
          then [Uncaught (TypeError "this.totalConnections")] else []
     else endSettled k (thrown (self conn) s) rest) /\
  count (terminates conn) (log s') = S (count (terminates conn) (log s)).
Proof.
  intros He s'. subst s'. rewrite (rollback_failed_step _ _ _ _ _ _ He).
  cbv zeta.
  destruct (checkPoolSize_effect (self conn) (discarded conn rest s))
    as (Hi & Ha & Hl & Hq & Hlog & Hrb & Htick & _).
  set (s1 := state_of (checkPoolSize (self conn) (discarded conn rest s))) in *.
  change (totalConnections (discarded conn rest s) <?
          connectionLimit (opts (discarded conn rest s)))
    with (totalConnections (discarded conn rest s) <? connectionLimit (opts s))
    in Htick.
  set (b := totalConnections (discarded conn rest s) <? connectionLimit (opts s)) in *.
  cbn in Hi, Ha, Hl, Hq, Hlog, Hrb, Htick.
  assert (Htot : forall s2, idleConnections s2 = idleConnections s1 ->
            activeConnections s2 = activeConnections s1 ->
            totalConnections s2 = totalConnections (discarded conn rest s)).
  { intros s2 H1 H2. unfold totalConnections, poolActiveConnections,
      poolIdleConnections. rewrite H1, H2, Hi, Ha. reflexivity. }
  unfold thrown.
  assert (Hb : forall s2, idleConnections s2 = idleConnections s1 ->
            activeConnections s2 = activeConnections s1 ->
            (totalConnections s2 <? connectionLimit (opts s)) = b).
  { intros s2 H1 H2. now rewrite (Htot s2 H1 H2). }
  clearbody b. clear Htot.
  destruct (useCallback s);
    [destruct (negb (connectionInCreation s) && negb (self conn))|];
    (rewrite Hb by reflexivity); unfold endDelivered; cbn;
    rewrite ?Hi, ?Ha, ?Hl, ?Hq, ?Hlog, ?Hrb, ?Htick;
    rewrite <- ?app_assoc; cbn; rewrite ?app_nil_r, ?count_app; cbn;
    rewrite ?same_conn_refl, ?endSettled_terminates;
    repeat split; auto; lia.
Qed.

(** X13. The wrapped [destroy] removes the session from the active set,
    calls the real [destroy] once and leaves the idle queue as it is, so a
    session destroyed while idle stays in the queue.  One replacement is
    scheduled exactly when no creation is marked, the session knows its
    pool and the pool is below its limit; when the session does not know
    its pool and no creation is marked, the call throws a TypeError after
    the session is destroyed. *)
Theorem destroy_leaves_idle_queue s conn :
  let s' := step (EvDestroy conn) s in
  activeConnections s' = delete (threadId conn) (activeConnections s) /\
  idleConnections s' = idleConnections s /\
  taskQueue s' = taskQueue s /\
  tickQueue s' =
    tickQueue s ++
    (if negb (connectionInCreation s) && self conn
        && (totalConnections s' <? connectionLimit (opts s))
     then [TickAddConnection true] else []) /\
  log s' =
    log s ++ CallInitialDestroy conn ::
    (if negb (connectionInCreation s) && negb (self conn)
     then [Uncaught (TypeError "this.totalConnections")] else []) /\
  count (terminates conn) (log s') = S (count (terminates conn) (log s)).
Proof.
  intros s'.
  set (s0 := set_log (log s ++ [CallInitialDestroy conn])
               (set_activeConnections (delete (threadId conn) (activeConnections s))
                  s)).
  assert (Hs : s' = run_callback (checkPoolSize (self conn)) s0).
  { subst s'. unfold step, run_callback, wrappedDestroy, deleteActive.
    unfold_monad. cbn. reflexivity. }
  assert (Htot : totalConnections s' = totalConnections s0).
  { rewrite Hs. unfold run_callback, checkPoolSize. unfold_monad. cbn.
    destruct (connectionInCreation s), (self conn); cbn; try reflexivity.
    destruct (totalConnections s0 <? connectionLimit (opts s)); reflexivity. }
  rewrite Htot. clearbody s'. subst s'. unfold run_callback.
  destruct (checkPoolSize_effect (self conn) s0)
    as (Hi & Ha & Hl & Hq & Hlog & Hrb & Htick & Hres).
  cbn in Hi, Ha, Hl, Hq, Hlog, Hrb, Htick.
  destruct Hres as [Hres|[Hres Hb]]; rewrite Hres in *; cbn [state_of] in *.
  - assert (Hu : negb (connectionInCreation s) && negb (self conn) = false).
    { revert Hres. unfold checkPoolSize. unfold_monad. cbn.
      destruct (connectionInCreation s), (self conn); cbn;
        try reflexivity; discriminate. }
    rewrite Hu, Hi, Ha, Hq, Hlog, Htick.
    rewrite count_app. cbn. rewrite same_conn_refl.
    repeat split; auto; lia.
  - apply andb_true_iff in Hb as [Hb1 Hb2]. cbn in Hb1.
    apply negb_true_iff in Hb1, Hb2. rewrite Hb1, Hb2 in *.
    cbn; rewrite ?Hi, ?Ha, ?Hq, ?Hlog, ?Htick; cbn;
      rewrite <- ?app_assoc; cbn;
      rewrite ?count_app; cbn; rewrite ?same_conn_refl, ?app_nil_r;
      repeat split; auto; try lia.
Qed.

(** ** The ["error"] handler, in general *)

Lemma markStale_front front : forall lu c,
  In c front -> markStale front lu !! cid c = Some (DateObj 0).
Proof.
  unfold markStale.
  induction front as [|x front IH] using rev_ind; intros lu c Hin; [destruct Hin|].
  rewrite fold_left_app. cbn. apply in_app_or in Hin as [Hin|[<-|[]]].
  - destruct (decide (cid x = cid c)) as [->|Hne].
    + apply lookup_insert_eq.
    + rewrite lookup_insert_ne by assumption. now apply IH.
  - apply lookup_insert_eq.
Qed.

Lemma markStale_other front : forall lu c,
  ~ In (cid c) (cids front) -> markStale front lu !! cid c = lu !! cid c.
Proof.
  unfold markStale, cids.
  induction front as [|x front IH]; intros lu c Hin; cbn; [reflexivity|].
  rewrite IH by (intros H; apply Hin; now right).
  apply lookup_insert_ne. intros H. apply Hin. now left.
Qed.

Lemma scan_split conn front back :
  Forall (fun c => same_conn c conn = false) front ->
  scanned conn (front ++ conn :: back) = front /\
  evict conn (front ++ conn :: back) = front ++ back.
Proof.
  induction 1 as [|c front Hc _ [IH1 IH2]]; cbn.
  - now rewrite same_conn_refl.
  - rewrite Hc, IH1, IH2. auto.
Qed.

(** X9. When a session that sits in the idle queue emits ["error"], it is
    removed from the queue and from the active set; the idle sessions in
    front of it get [lastUse = new Date(0)] and are therefore pinged at
    their next acquisition whenever that happens after
    [minDelayValidation]; the idle sessions behind it keep their
    [lastUse]. *)
Theorem error_evicts_and_marks_front s conn front back :
  idleConnections s = front ++ conn :: back ->
  Forall (fun c => same_conn c conn = false) front ->
  let s' := step (EvError conn) s in
  idleConnections s' = front ++ back /\
  activeConnections s' = delete (threadId conn) (activeConnections s) /\
  (forall c, In c front -> lastUse s' !! cid c = Some (DateObj 0)) /\
  (forall c now, In c front -> minDelayValidation (opts s) < now ->
     mustPing s' now c = true) /\
  (forall c, ~ In (cid c) (cids front) -> lastUse s' !! cid c = lastUse s !! cid c) /\
  (forall c now, ~ In (cid c) (cids front) -> mustPing s' now c = mustPing s now c).
Proof.
  intros Hi Hf s'.
  destruct (scan_split conn front back Hf) as [Hsc Hev].
  assert (Hs : idleConnections s' = front ++ back /\
               activeConnections s' = delete (threadId conn) (activeConnections s) /\
               lastUse s' = markStale front (lastUse s) /\ opts s' = opts s).
  { subst s'. unfold step, run_callback, onError, deleteActive.
    unfold_monad. cbn. loops. cbn. unfold afterError. cbn. rewrite Hi, Hsc, Hev.
    destruct (checkPoolSize_effect (self conn)
      (set_lastUse (markStale front (lastUse s))
         (set_idleConnections (front ++ back)
            (set_activeConnections (delete (threadId conn) (activeConnections s)) s))))
      as (H1 & H2 & H3 & _ & _ & _ & _ & Hres).
    assert (Ho : forall r, opts (state_of (checkPoolSize (self conn) r)) = opts r).
    { intros r. unfold checkPoolSize. unfold_monad. cbn.
      destruct (connectionInCreation r), (self conn); cbn; try reflexivity.
      destruct (totalConnections r <? connectionLimit (opts r)); reflexivity. }
    specialize (Ho (set_lastUse (markStale front (lastUse s))
         (set_idleConnections (front ++ back)
            (set_activeConnections (delete (threadId conn) (activeConnections s)) s)))).
    destruct Hres as [Hres|[Hres _]]; rewrite Hres in *; cbn in *; auto. }
  destruct Hs as (H1 & H2 & H3 & H4).
  split; [assumption|]. split; [assumption|].
  split; [intros c Hin; rewrite H3; now apply markStale_front|].
  split.
  { intros c now Hin Hnow. unfold mustPing. rewrite H3, H4.
    rewrite (markStale_front front _ c Hin). cbn.
    apply orb_true_iff. right. lia. }
  split; [intros c Hin; rewrite H3; now apply markStale_other|].
  intros c now Hin. unfold mustPing. rewrite H3, H4.
  now rewrite (markStale_other front _ c Hin).
Qed.

(** ** Release *)

(** X11. Once the pool is closed, a session whose release succeeds is not
    pooled again: it leaves the active set, its real [end] is called, and
    no service of the task queue is scheduled.  In promise mode the promise
    of the [pool.end()] that awaits this rollback is fulfilled then, when
    no other rollback is awaited. *)
Theorem release_after_end_terminates_session s c conn k rest now :
  closed s = true ->
  extract (fun x => is_conn c (fst x)) (rollingBack s) = Some ((conn, k), rest) ->
  let s' := step (EvRollback c true now) s in
  idleConnections s' = idleConnections s /\
  activeConnections s' = delete (threadId conn) (activeConnections s) /\
  rollingBack s' = rest /\
  tickQueue s' = tickQueue s /\
  log s' =
    log s ++ CallInitialEnd conn ::
    (if useCallback s then [] else endSettled k None rest) /\
  count (terminates conn) (log s') = S (count (terminates conn) (log s)).
Proof.
  intros Hc He s'. subst s'. rewrite (rollback_ok_step _ _ _ _ _ _ He), Hc.
  assert (Hf : endFollowers k None rest = rest) by (destruct k; reflexivity).
  destruct (useCallback s); unfold endDelivered, terminated; cbn;
    rewrite ?Hf, <- ?app_assoc; cbn; rewrite ?count_app; cbn;
    rewrite ?count_app; cbn;
    rewrite ?same_conn_refl, ?endSettled_terminates; repeat split; auto; lia.
Qed.

(** X12. Round trip of a session: acquired from the front of the idle
    queue without a ping, released, and rolled back successfully, the
    session is at the back of the idle queue with [lastUse] set to the time
    of the rollback, it is no longer active, and one service of the task
    queue is scheduled. *)
Theorem acquire_release_round_trip s now isValid conn rest now' :
  closed s = false ->
  idleConnections s = conn :: rest ->
  mustPing s now conn = false ->
  isValid conn = true ->
  extract (fun x => is_conn (cid conn) (fst x)) (rollingBack s) = None ->
  let s' :=
    run [EvGetConnection now isValid; EvRelease conn;
         EvRollback (cid conn) true now'] s in
  idleConnections s' = rest ++ [conn] /\
  activeConnections s' = delete (threadId conn) (activeConnections s) /\
  lastUse s' = <[cid conn := Stamp now']> (lastUse s) /\
  rollingBack s' = rollingBack s /\
  taskQueue s' = taskQueue s /\
  tickQueue s' = tickQueue s ++ [TickHandleTaskQueue] /\
  log s' = log s ++ [Resolve (nextPromise s) (VConn conn); CallRollback conn].
Proof.
  intros Hc Hi Hp Hv He s'. subst s'. unfold run. cbn [fold_left].
  set (s1 := step (EvGetConnection now isValid) s).
  assert (H1 : s1 =
    set_log (log s ++ [Resolve (nextPromise s) (VConn conn)])
      (set_activeConnections (<[threadId conn := conn]> (activeConnections s))
         (set_idleConnections rest (set_nextPromise (S (nextPromise s)) s)))).
  { subst s1. unfold step, run_callback, handleRequest, newPromise.
    unfold_monad. cbn. rewrite Hc. loops. unfold acquireFrom. cbn. rewrite Hi. cbn.
    rewrite (mustPing_ext s (set_nextPromise (S (nextPromise s)) s) now conn)
      by reflexivity.
    rewrite Hp, Hv. reflexivity. }
  clearbody s1. subst s1.
  set (s2 := step (EvRelease conn) _).
  assert (H2 : s2 =
    set_rollingBack (rollingBack s ++ [(conn, EndCaller)])
      (set_log (log s ++ [Resolve (nextPromise s) (VConn conn); CallRollback conn])
         (set_activeConnections (<[threadId conn := conn]> (activeConnections s))
            (set_idleConnections rest (set_nextPromise (S (nextPromise s)) s))))).
  { subst s2. unfold step, run_callback, release, wrappedEnd.
    unfold_monad. cbn. pool_ext. now rewrite <- app_assoc. }
  clearbody s2. subst s2.
  pose proof (extract_last (fun x => is_conn (cid conn) (fst x)) _
                (conn, EndCaller) He (Nat.eqb_refl _)) as Hx.
  erewrite rollback_ok_step by exact Hx. cbn. rewrite Hc.
  destruct (useCallback s); unfold endDelivered, recycled; cbn;
    rewrite delete_insert_eq, <- ?app_assoc, ?app_nil_r;
    repeat split; reflexivity.
Qed.

(** X15. Round trip of [pool.query] on an open pool whose front idle
    session needs no ping: the query is started on that session; when it
    completes the session is released and the caller gets the rows or the
    error; after the rollback the session is at the back of the idle
    queue. *)
Theorem query_round_trip s q vs now isValid conn rest res now' :
  closed s = false ->
  idleConnections s = conn :: rest ->
  mustPing s now conn = false ->
  isValid conn = true ->
  truthy (Some q) = true ->
  extract (fun x => is_conn (cid conn) (fst x)) (querying s) = None ->
  extract (fun x => is_conn (cid conn) (fst x)) (rollingBack s) = None ->
  let s' :=
    run [EvQuery (Some q) vs now isValid; EvQueryDone (cid conn) res;
         EvRollback (cid conn) true now'] s in
  idleConnections s' = rest ++ [conn] /\
  activeConnections s' = delete (threadId conn) (activeConnections s) /\
  querying s' = querying s /\
  rollingBack s' = rollingBack s /\
  lastUse s' = <[cid conn := Stamp now']> (lastUse s) /\
  log s' = log s ++ [CallQuery conn (Some q) vs; CallRollback conn;
                     outcome (nextPromise s) res].
Proof.
  intros Hc Hi Hp Hv Hq Heq Her s'. subst s'. unfold run. cbn [fold_left].
  set (s1 := step (EvQuery (Some q) vs now isValid) s).
  assert (H1 : s1 =
    set_querying (querying s ++ [(conn, QRequest (nextPromise s))])
      (set_log (log s ++ [CallQuery conn (Some q) vs])
         (set_activeConnections (<[threadId conn := conn]> (activeConnections s))
            (set_idleConnections rest (set_nextPromise (S (nextPromise s)) s))))).
  { subst s1. unfold step, run_callback, handleRequest, newPromise.
    unfold_monad. cbn. rewrite Hc. loops. unfold acquireFrom. cbn. rewrite Hi. cbn.
    rewrite (mustPing_ext s (set_nextPromise (S (nextPromise s)) s) now conn)
      by reflexivity.
    rewrite Hp, Hv. unfold acquired, useConnection, startQuery. cbn.
    unfold truthy in Hq. rewrite Hq. reflexivity. }
  clearbody s1. subst s1.
  set (s2 := step (EvQueryDone (cid conn) res) _).
  assert (H2 : s2 =
    set_log (log s ++ [CallQuery conn (Some q) vs; CallRollback conn;
                       outcome (nextPromise s) res])
      (set_rollingBack (rollingBack s ++ [(conn, EndIgnored)])
         (set_activeConnections (<[threadId conn := conn]> (activeConnections s))
            (set_idleConnections rest (set_nextPromise (S (nextPromise s)) s))))).
  { subst s2. unfold step. cbn.
    rewrite (extract_last _ _ (conn, QRequest (nextPromise s)) Heq)
      by (unfold is_conn; apply Nat.eqb_refl).
    unfold run_callback. rewrite queried_eq. cbn.
    pool_ext. now rewrite <- app_assoc. }
  clearbody s2. subst s2.
  pose proof (extract_last (fun x => is_conn (cid conn) (fst x)) _
                (conn, EndIgnored) Her (Nat.eqb_refl _)) as Hx.
  erewrite rollback_ok_step by exact Hx. cbn. rewrite Hc.
  destruct (useCallback s); unfold endDelivered, recycled; cbn;
    rewrite delete_insert_eq, ?app_nil_r; repeat split; reflexivity.
Qed.

(** ** Waiters *)

(** X14. [getConnection] on an open pool with no idle session delivers
    nothing at once; when its rejection handler runs, the request is
    queued behind the other waiters with the deadline [Date.now() +
    acquireTimeout], the timer is armed with [acquireTimeout] if none is
    live, and a session is created, with an undefined pool, exactly when no
    creation is marked and the pool is below its limit. *)
Theorem acquire_without_idle_queues_waiter allowed o cb s now isValid now' :
  Reachable allowed (newPool o cb) s ->
  closed s = false ->
  idleConnections s = [] ->
  let p := nextPromise s in
  let s1 := step (EvGetConnection now isValid) s in
  let s2 := step (EvRejected p now') s1 in
  let create :=
    negb (connectionInCreation s) && (totalConnections s <? connectionLimit o) in
  let task := mkTask (now' + acquireTimeout o) p None [] in
  log s1 = log s /\
  taskQueue s1 = taskQueue s /\
  taskQueue s2 = taskQueue s ++ [task] /\
  log s2 = log s ++ (if create then [CallConnect (nextConn s)] else []) /\
  connecting s2 = connecting s ++ (if create then [(nextConn s, false)] else []) /\
  timers s2 =
    timers s ++
    match firstTaskTimeout s with
    | None => [mkTimer (nextTimer s) (acquireTimeout o) task]
    | Some _ => []
    end /\
  idleConnections s2 = [] /\
  activeConnections s2 = activeConnections s.
Proof.
  intros Hr Hc Hi p s1 s2 create task.
  destruct (opts_reachable _ _ _ _ Hr) as [Ho _].
  destruct (promises_ok_reachable _ _ _ _ Hr p) as [_ Hp].
  assert (Hn : extract (fun r => Nat.eqb (promise r) p) (rejected s) = None).
  { apply extract_none_count.
    destruct (count (fun r => Nat.eqb (promise r) p) (rejected s)) eqn:E;
      [reflexivity|].
    exfalso. assert (p < nextPromise s)%nat; [|subst p; lia].
    apply Hp. unfold occ, waiting, request_is. rewrite E. lia. }
  assert (H1 : s1 =
    set_rejected (rejected s ++ [mkRequest p None []])
      (set_activeConnections (activeConnections s)
        (set_idleConnections [] (set_nextPromise (S p) s)))).
  { subst s1. unfold step, run_callback, handleRequest, newPromise.
    unfold_monad. cbn. rewrite Hc. loops. unfold acquireFrom. cbn. rewrite Hi.
    reflexivity. }
  clearbody s1. subst s1. subst s2. subst create task.
  unfold step. cbn.
  rewrite (extract_last _ _ (mkRequest p None []) Hn) by apply Nat.eqb_refl.
  unfold run_callback, onRejected, addConnectionToPool, setTimeout.
  unfold_monad. cbn. subst o.
  change (totalConnections (set_rejected _ _)) with
    (Z.of_nat (size (activeConnections s)) + 0).
  replace (totalConnections s) with (Z.of_nat (size (activeConnections s)) + 0)
    by (unfold totalConnections, poolActiveConnections, poolIdleConnections;
        now rewrite Hi).
  destruct (connectionInCreation s); cbn;
    [|destruct (Z.of_nat (size (activeConnections s)) + 0 <? connectionLimit (opts s))];
    cbn; destruct (firstTaskTimeout s); cbn; unfold push;
    rewrite ?app_nil_r; repeat split; reflexivity.
Qed.

(** ** Growth of the pool after [activatePool] *)

Lemma cids_length l : length (cids l) = length l.
Proof. unfold cids. apply length_map. Qed.

Lemma growing_start o cb : growing o 0 (step EvActivatePool (newPool o cb)).
Proof. unfold growing. cbn. repeat split; reflexivity. Qed.

Lemma growing_round o k tid now s :
  growing o k s ->
  let s' := run [EvConnect k (Some (tid k)) now; EvTick now] s in
  (Z.of_nat (S k) < connectionLimit o -> growing o (S k) s') /\
  (connectionLimit o <= Z.of_nat (S k) ->
   cids (idleConnections s') = seq 0 (S k) /\ activeConnections s' = ∅ /\
   totalConnections s' = Z.of_nat (S k) /\ creationsInFlight s' = 0 /\
   connectionInCreation s' = false /\ log s' = map CallConnect (seq 0 (S k))).
Proof.
  intros (Ho & Hc & Hf & Hi & Ha & Hq & Ht & Htk & Hcn & Hn & Hl) s'.
  set (conn := mkConn k (tid k) true).
  set (s0 := set_connectionInCreation false
               (set_lastUse (<[k := Stamp now]> (lastUse s))
                  (set_idleConnections (idleConnections s ++ [conn])
                     (set_connecting [] s)))).
  assert (Htot : totalConnections s0 = Z.of_nat (S k)).
  { unfold totalConnections, poolActiveConnections, poolIdleConnections. cbn.
    rewrite Ha, map_size_empty, length_app, <- (cids_length (idleConnections s)), Hi,
      length_seq. cbn. lia. }
  assert (H1 : step (EvConnect k (Some (tid k)) now) s =
               if Z.of_nat (S k) <? connectionLimit o then grown true s0 else s0).
  { unfold step. rewrite Hcn. cbn. rewrite Nat.eqb_refl.
    unfold run_callback, connected, connectOk, overlayNewConnection, checkPoolSize,
      handleTaskQueue, setLastUse, grown.
    unfold_monad. cbn. fold conn.
    destruct (useCallback s); cbn; rewrite Hc; cbn; fold s0; rewrite Htot, Ho;
      destruct (Z.of_nat (S k) <? connectionLimit o); cbn; rewrite ?Ht; cbn;
      rewrite ?Hq; reflexivity. }
  subst s'. unfold run. cbn [fold_left]. rewrite H1. clear H1.
  assert (Hids : cids (idleConnections s ++ [conn]) = seq 0 (S k)).
  { unfold cids in *. rewrite map_app, Hi, seq_S. reflexivity. }
  split; intros Hlim.
  - rewrite (proj2 (Z.ltb_lt _ _) Hlim).
    unfold step, grown. cbn. rewrite Htk. cbn.
    unfold growing. cbn. rewrite Hn, Hl, Ho, Ha, Hq, Ht.
    repeat split; auto.
    symmetry. exact (eq_trans (f_equal (map CallConnect) (seq_S (S k) 0))
                       (map_app CallConnect _ _)).
  - rewrite (proj2 (Z.ltb_ge _ _) Hlim).
    unfold step. cbn. rewrite Htk.
    unfold creationsInFlight. cbn. rewrite Htk. cbn.
    rewrite Ha, Hl. repeat split; auto.
Qed.

Lemma growth_fills o tid now : forall m k s,
  growing o k s -> connectionLimit o = Z.of_nat (k + m) -> (1 <= m)%nat ->
  let s' := run (growth m k tid now) s in
  cids (idleConnections s') = seq 0 (k + m) /\ activeConnections s' = ∅ /\
  totalConnections s' = Z.of_nat (k + m) /\ creationsInFlight s' = 0 /\
  connectionInCreation s' = false /\ log s' = map CallConnect (seq 0 (k + m)).
Proof.
  induction m as [|m IH]; intros k s Hg Hlim Hm; [lia|].
  cbn [growth].
  change (run (EvConnect k (Some (tid k)) now :: EvTick now :: growth m (S k) tid now) s)
    with (run (growth m (S k) tid now)
            (run [EvConnect k (Some (tid k)) now; EvTick now] s)).
  destruct (growing_round o k tid now s Hg) as [Hlt Hge].
  destruct m as [|m].
  - cbn [growth run fold_left]. replace (k + 1)%nat with (S k) by lia.
    apply Hge. lia.
  - replace (k + S (S m))%nat with (S k + S m)%nat by lia.
    apply IH; [apply Hlt; lia|lia|lia].
Qed.

(** X16. After [activatePool] on a new pool, if every [connect] succeeds
    the pool creates its sessions one at a time until [connectionLimit]
    sessions are idle; then no creation is in flight or marked, and exactly
    [connectionLimit] connections have been opened. *)
Theorem activatePool_fills_pool o cb n tid now :
  connectionLimit o = Z.of_nat n ->
  (1 <= n)%nat ->
  let s := run (EvActivatePool :: growth n 0 tid now) (newPool o cb) in
  cids (idleConnections s) = seq 0 n /\
  activeConnections s = ∅ /\
  totalConnections s = connectionLimit o /\
  creationsInFlight s = 0 /\
  connectionInCreation s = false /\
  log s = map CallConnect (seq 0 n).
Proof.
  intros Hlim Hn s. subst s.
  change (run (EvActivatePool :: growth n 0 tid now) (newPool o cb))
    with (run (growth n 0 tid now) (step EvActivatePool (newPool o cb))).
  rewrite Hlim.
  apply (growth_fills o tid now n 0%nat _ (growing_start o cb) Hlim Hn).
Qed.

(** ** Every idle session carries its [lastUse] *)

Lemma stamped_ext s s' :
  idleConnections s' = idleConnections s -> lastUse s' = lastUse s ->
  stamped s -> stamped s'.
Proof. unfold stamped. intros -> ->. auto. Qed.

Lemma acquireFrom_stamped now isValid k s :
  stamped s -> stamped (state_of (acquireFrom now isValid k s)).
Proof.
  unfold stamped, acquireFrom.
  pose proof (validate_split s now isValid (idleConnections s)) as Hsplit.
  intros H. go; intros sess Hin; try (destruct Hin; fail); apply H; rewrite Hsplit;
    apply in_or_app; right; now right.
Qed.

Lemma handleTaskQueue_stamped now s :
  stamped s -> stamped (state_of (handleTaskQueue now s)).
Proof.
  unfold stamped, handleTaskQueue. intros H. go; autorewrite with frame; cbn.
  all: intros sess Hin; apply H; rewrite_eqs; auto; now right.
Qed.

Lemma evict_In conn c l : In c (evict conn l) -> In c l.
Proof.
  induction l as [|x l IH]; cbn; [auto|].
  destruct (same_conn x conn); cbn; [auto|]. intros [->|H]; auto.
Qed.

Lemma markStale_is_Some l : forall lu k,
  is_Some (lu !! k) -> is_Some (markStale l lu !! k).
Proof.
  unfold markStale. induction l as [|x l IH]; intros lu k H; cbn; [assumption|].
  apply IH. destruct (decide (cid x = k)) as [->|Hne].
  - rewrite lookup_insert_eq. eauto.
  - now rewrite lookup_insert_ne.
Qed.

Lemma insert_is_Some (lu : gmap nat LastUse) k k' t :
  k = k' \/ is_Some (lu !! k') -> is_Some (<[k := t]> lu !! k').
Proof.
  destruct (decide (k = k')) as [->|Hne].
  - rewrite lookup_insert_eq. eauto.
  - rewrite lookup_insert_ne by assumption. intros [?|?]; [contradiction|assumption].
Qed.

Lemma checkPoolSize_stamped this s :
  stamped s -> stamped (state_of (checkPoolSize this s)).
Proof.
  pose proof (checkPoolSize_effect this s) as H. cbv zeta in H.
  destruct H as (Hi & _ & Hl & _). intros Hs. now apply (stamped_ext s).
Qed.

Ltac stamp_sub :=
  match goal with
  | |- context [checkPoolSize ?t ?s] =>
      pose proof (checkPoolSize_stamped t s);
      destruct (checkPoolSize t s) as [[] ?|? ?]; cbn [state_of] in *
  | |- context [acquireFrom ?n ?v ?k ?s] =>
      let Hok := fresh "Hok" in
      pose proof (acquireFrom_stamped n v k s);
      destruct (acquireFrom_ok n v k s) as [? Hok];
      rewrite Hok in *; clear Hok; cbn [state_of] in *
  | |- context [handleTaskQueue ?n ?s] =>
      pose proof (handleTaskQueue_stamped n s);
      destruct (handleTaskQueue n s) as [[] ?|? ?]; cbn [state_of] in *
  end.

Ltac stamp_base :=
  unfold stamped in *; cbn in *; autorewrite with frame in *; cbn in *;
  let c := fresh "c" in let Hin := fresh "Hin" in
  intros c Hin;
  repeat match goal with
  | H : In _ (push _ _) |- _ => unfold push in H
  | H : In _ (_ ++ _) |- _ => apply in_app_or in H as [H|[<-|[]]]
  | H : In _ (evict _ _) |- _ => apply evict_In in H
  | H : In _ [] |- _ => destruct H
  | H : False |- _ => destruct H
  end;
  repeat match goal with
  | |- is_Some (markStale _ _ !! _) => apply markStale_is_Some
  | |- is_Some (<[_ := _]> _ !! _) => apply insert_is_Some; cbn
  end;
  auto.

Ltac stamp_finish :=
  repeat match goal with
  | H : stamped ?a -> stamped ?b |- _ =>
      let H' := fresh "Hst" in
      assert (H' : stamped b); [solve [apply H; stamp_base]|]; clear H
  end;
  stamp_base.

Lemma stamped_step e s : stamped s -> stamped (step e s).
Proof.
  intros Hs. destruct e; unfold step.
  all: repeat (simp_with idtac;
               try first [stamp_sub | case_atom];
               simplify_eq/=; try congruence).
  all: try assumption.
  all: stamp_finish.
Qed.

Lemma stamped_reachable allowed o cb s :
  Reachable allowed (newPool o cb) s -> stamped s.
Proof.
  induction 1 as [|s e Hr IH Ha]; [intros c []|now apply stamped_step].
Qed.

(** X17. In every reachable state each session of the idle queue has its
    [lastUse] set, so the test of [getIdleValidConnection] that decides on
    a ping always compares [Date.now() - conn.lastUse] on a number. *)
Theorem idle_sessions_have_lastUse allowed o cb s now conn :
  Reachable allowed (newPool o cb) s ->
  In conn (idleConnections s) ->
  exists t, lastUse s !! cid conn = Some t /\
            mustPing s now conn =
              (minDelayValidation o <=? 0) || (minDelayValidation o <? now - valueOf t).
Proof.
  intros Hr Hin. destruct (stamped_reachable _ _ _ _ Hr conn Hin) as [t Ht].
  destruct (opts_reachable _ _ _ _ Hr) as [Ho _].
  exists t. split; [assumption|]. unfold mustPing. now rewrite Ht, Ho.
Qed.

(** ** Instances of the further properties *)

Lemma waiting1_reachable :
  Reachable any_event (newPool (mkOptions 1 100 500) false) waiting1.
Proof. apply reachable_any. Qed.

Lemma one_live_timer_witness :
  Reachable any_event (newPool (mkOptions 1 100 500) false) waiting1 /\
  (length (timers waiting1) <= 1)%nat.
Proof.
  pose proof waiting1_reachable as Hr.
  destruct (one_live_timer any_event (mkOptions 1 100 500) false waiting1 Hr)
    as [H1 _].
  split; [exact Hr|exact H1].
Defined.

Lemma promise_settled_at_most_once_witness :
  Reachable any_event (newPool (mkOptions 1 1000 500) false) overtaken /\
  (settled 0 overtaken <= 1)%nat.
Proof.
  pose proof overtaken_reachable as Hr.
  destruct (promise_settled_at_most_once any_event (mkOptions 1 1000 500) false
              overtaken 0%nat Hr) as [H1 _].
  split; [exact Hr|exact H1].
Defined.

Lemma acquire_takes_front_idle_witness :
  closed oneIdle = false /\
  idleConnections oneIdle = [session 0 10] /\
  mustPing oneIdle 1001 (session 0 10) = false /\
  allValid (session 0 10) = true /\
  idleConnections (step (EvGetConnection 1001 allValid) oneIdle) = [].
Proof.
  assert (Hc : closed oneIdle = false) by compute_eq.
  assert (Hi : idleConnections oneIdle = [session 0 10]) by compute_eq.
  assert (Hp : mustPing oneIdle 1001 (session 0 10) = false) by compute_eq.
  assert (Hv : allValid (session 0 10) = true) by reflexivity.
  destruct (acquire_takes_front_idle oneIdle 1001 allValid (session 0 10) [] Hc Hi)
    as (_ & _ & H3 & _).
  destruct (H3 Hp Hv) as (H & _).
  split; [exact Hc|]. split; [exact Hi|]. split; [exact Hp|].
  split; [exact Hv|exact H].
Defined.

Lemma pingingCallback_reachable :
  Reachable any_event (newPool (mkOptions 1 1000 0) true) pingingCallback.
Proof. apply reachable_any. Qed.

Lemma callback_failed_ping_strands_request_witness :
  Reachable any_event (newPool (mkOptions 1 1000 0) true) pingingCallback /\
  extract (fun x => is_conn 0 (fst x)) (pinging pingingCallback)
    = Some ((session 0 10, Some (mkRequest 0 None [])), []) /\
  settled (promise (mkRequest 0 None []))
    (run [EvTick 2002] (step (EvPing 0 false 2001 allValid) pingingCallback))
  = 0%nat.
Proof.
  pose proof pingingCallback_reachable as Hr.
  assert (He : extract (fun x => is_conn 0 (fst x)) (pinging pingingCallback)
               = Some ((session 0 10, Some (mkRequest 0 None [])), []))
    by compute_eq.
  destruct (callback_failed_ping_strands_request any_event (mkOptions 1 1000 0)
              pingingCallback 0%nat (session 0 10) (mkRequest 0 None []) []
              2001 allValid [EvTick 2002] Hr He) as [H1 _].
  split; [exact Hr|]. split; [exact He|exact H1].
Defined.

Lemma query_without_sql_acquires_session_witness :
  truthy (Some EmptyString) = false /\
  log (step (EvQuery (Some EmptyString) [] 1001 allValid) oneIdle)
  = log (step (EvGetConnection 1001 allValid) oneIdle).
Proof.
  assert (Hq : truthy (Some EmptyString) = false) by reflexivity.
  destruct (query_without_sql_acquires_session (Some EmptyString) [] 1001 allValid
              oneIdle Hq) as [H1 _].
  split; [exact Hq|exact H1].
Defined.

Lemma on_demand_session_skips_waiters_witness :
  closed waiting1 = false /\
  extract (fun x => Nat.eqb (fst x) 0) (connecting waiting1)
    = Some ((0%nat, false), []) /\
  idleConnections (step (EvConnect 0 (Some 10) 50) waiting1)
  = idleConnections waiting1 ++ [mkConn 0 10 false].
Proof.
  assert (Hc : closed waiting1 = false) by compute_eq.
  assert (He : extract (fun x => Nat.eqb (fst x) 0) (connecting waiting1)
               = Some ((0%nat, false), [])) by compute_eq.
  destruct (on_demand_session_skips_waiters waiting1 0%nat 0%nat [] 10 50 Hc He)
    as [H1 _].
  split; [exact Hc|]. split; [exact He|exact H1].
Defined.

Lemma failed_rollback_discards_session_witness :
  extract (fun x => is_conn 0 (fst x)) (rollingBack ended)
    = Some ((session 0 10, EndAll 0 2), [(session 1 11, EndAll 0 2)]) /\
  rollingBack (step (EvRollback 0 false 1005) ended) =
    (if useCallback ended then [(session 1 11, EndAll 0 2)]
     else endFollowers (EndAll 0 2) (thrown (self (session 0 10)) ended)
            [(session 1 11, EndAll 0 2)]) /\
  idleConnections (step (EvRollback 0 false 1005) ended) = idleConnections ended.
Proof.
  assert (He : extract (fun x => is_conn 0 (fst x)) (rollingBack ended)
               = Some ((session 0 10, EndAll 0 2), [(session 1 11, EndAll 0 2)]))
    by compute_eq.
  destruct (failed_rollback_discards_session ended 0%nat (session 0 10)
              (EndAll 0 2) [(session 1 11, EndAll 0 2)] 1005 He)
    as (H1 & _ & H3 & _).
  split; [exact He|]. split; [exact H1|exact H3].
Defined.

Lemma error_evicts_and_marks_front_witness :
  idleConnections twoIdle = [session 0 10] ++ session 1 11 :: [] /\
  Forall (fun c => same_conn c (session 1 11) = false) [session 0 10] /\
  idleConnections (step (EvError (session 1 11)) twoIdle) = [session 0 10] ++ [].
Proof.
  assert (Hi : idleConnections twoIdle = [session 0 10] ++ session 1 11 :: [])
    by compute_eq.
  assert (Hf : Forall (fun c => same_conn c (session 1 11) = false) [session 0 10]).
  { constructor; [reflexivity|constructor]. }
  destruct (error_evicts_and_marks_front twoIdle (session 1 11) [session 0 10] []
              Hi Hf) as [H1 _].
  split; [exact Hi|]. split; [exact Hf|exact H1].
Defined.

Lemma failed_connect_retries_on_next_tick_witness :
  extract (fun x => Nat.eqb (fst x) 0) (connecting activated)
    = Some ((0%nat, true), []) /\
  connecting (step (EvConnect 0 None 1000) activated) = [].
Proof.
  assert (He : extract (fun x => Nat.eqb (fst x) 0) (connecting activated)
               = Some ((0%nat, true), [])) by compute_eq.
  destruct (failed_connect_retries_on_next_tick activated 0%nat 0%nat true []
              1000 He) as [H1 _].
  split; [exact He|exact H1].
Defined.

Lemma release_after_end_terminates_session_witness :
  closed ended = true /\
  extract (fun x => is_conn 0 (fst x)) (rollingBack ended)
    = Some ((session 0 10, EndAll 0 2), [(session 1 11, EndAll 0 2)]) /\
  idleConnections (step (EvRollback 0 true 1005) ended) = idleConnections ended /\
  rollingBack (step (EvRollback 0 true 1005) ended) = [(session 1 11, EndAll 0 2)].
Proof.
  assert (Hc : closed ended = true) by compute_eq.
  assert (He : extract (fun x => is_conn 0 (fst x)) (rollingBack ended)
               = Some ((session 0 10, EndAll 0 2), [(session 1 11, EndAll 0 2)]))
    by compute_eq.
  destruct (release_after_end_terminates_session ended 0%nat (session 0 10)
              (EndAll 0 2) [(session 1 11, EndAll 0 2)] 1005 Hc He)
    as (H1 & _ & H3 & _).
  split; [exact Hc|]. split; [exact He|]. split; [exact H1|exact H3].
Defined.

Lemma acquire_release_round_trip_witness :
  closed oneIdle = false /\
  idleConnections oneIdle = [session 0 10] /\
  mustPing oneIdle 1001 (session 0 10) = false /\
  allValid (session 0 10) = true /\
  extract (fun x => is_conn (cid (session 0 10)) (fst x)) (rollingBack oneIdle) = None /\
  idleConnections
    (run [EvGetConnection 1001 allValid; EvRelease (session 0 10);
          EvRollback (cid (session 0 10)) true 1002] oneIdle)
  = [] ++ [session 0 10].
Proof.
  assert (Hc : closed oneIdle = false) by compute_eq.
  assert (Hi : idleConnections oneIdle = [session 0 10]) by compute_eq.
  assert (Hp : mustPing oneIdle 1001 (session 0 10) = false) by compute_eq.
  assert (Hv : allValid (session 0 10) = true) by reflexivity.
  assert (He : extract (fun x => is_conn (cid (session 0 10)) (fst x)) (rollingBack oneIdle) = None)
    by compute_eq.
  destruct (acquire_release_round_trip oneIdle 1001 allValid (session 0 10) []
              1002 Hc Hi Hp Hv He) as [H1 _].
  split; [exact Hc|]. split; [exact Hi|]. split; [exact Hp|].
  split; [exact Hv|]. split; [exact He|exact H1].
Defined.

Lemma lent_reachable :
  Reachable any_event (newPool (mkOptions 1 1000 500) false) lent.
Proof. apply reachable_any. Qed.

Lemma acquire_without_idle_queues_waiter_witness :
  Reachable any_event (newPool (mkOptions 1 1000 500) false) lent /\
  closed lent = false /\
  idleConnections lent = [] /\
  log (step (EvGetConnection 1002 allValid) lent) = log lent.
Proof.
  pose proof lent_reachable as Hr.
  assert (Hc : closed lent = false) by compute_eq.
  assert (Hi : idleConnections lent = []) by compute_eq.
  destruct (acquire_without_idle_queues_waiter any_event (mkOptions 1 1000 500)
              false lent 1002 allValid 1003 Hr Hc Hi) as [H1 _].
  split; [exact Hr|]. split; [exact Hc|]. split; [exact Hi|exact H1].
Defined.

Lemma query_round_trip_witness :
  closed oneIdle = false /\
  idleConnections oneIdle = [session 0 10] /\
  mustPing oneIdle 1001 (session 0 10) = false /\
  allValid (session 0 10) = true /\
  truthy (Some "SELECT 1"%string) = true /\
  extract (fun x => is_conn (cid (session 0 10)) (fst x)) (querying oneIdle) = None /\
  extract (fun x => is_conn (cid (session 0 10)) (fst x)) (rollingBack oneIdle) = None /\
  idleConnections
    (run [EvQuery (Some "SELECT 1"%string) [] 1001 allValid;
          EvQueryDone (cid (session 0 10)) (inl ["1"%string]);
          EvRollback (cid (session 0 10)) true 1002] oneIdle)
  = [] ++ [session 0 10].
Proof.
  assert (Hc : closed oneIdle = false) by compute_eq.
  assert (Hi : idleConnections oneIdle = [session 0 10]) by compute_eq.
  assert (Hp : mustPing oneIdle 1001 (session 0 10) = false) by compute_eq.
  assert (Hv : allValid (session 0 10) = true) by reflexivity.
  assert (Hq : truthy (Some "SELECT 1"%string) = true) by reflexivity.
  assert (Heq : extract (fun x => is_conn (cid (session 0 10)) (fst x))
                  (querying oneIdle) = None) by compute_eq.
  assert (Her : extract (fun x => is_conn (cid (session 0 10)) (fst x)) (rollingBack oneIdle) = None)
    by compute_eq.
  destruct (query_round_trip oneIdle "SELECT 1"%string [] 1001 allValid
              (session 0 10) [] (inl ["1"%string]) 1002 Hc Hi Hp Hv Hq Heq Her)
    as [H1 _].
  split; [exact Hc|]. split; [exact Hi|]. split; [exact Hp|].
  split; [exact Hv|]. split; [exact Hq|]. split; [exact Heq|].
  split; [exact Her|exact H1].
Defined.

Lemma activatePool_fills_pool_witness :
  connectionLimit (mkOptions 2 1000 500) = Z.of_nat 2 /\
  (1 <= 2)%nat /\
  cids (idleConnections
          (run (EvActivatePool :: growth 2 0 (fun c => 10 + Z.of_nat c) 1000)
             (newPool (mkOptions 2 1000 500) false)))
  = seq 0 2.
Proof.
  assert (Hl : connectionLimit (mkOptions 2 1000 500) = Z.of_nat 2) by reflexivity.
  assert (Hn : (1 <= 2)%nat) by lia.
  destruct (activatePool_fills_pool (mkOptions 2 1000 500) false 2%nat
              (fun c => 10 + Z.of_nat c) 1000 Hl Hn) as [H1 _].
  split; [exact Hl|]. split; [exact Hn|exact H1].
Defined.

Lemma twoIdle_reachable :
  Reachable any_event (newPool (mkOptions 2 1000 500) false) twoIdle.
Proof. apply reachable_any. Qed.

Lemma idle_sessions_have_lastUse_witness :
  Reachable any_event (newPool (mkOptions 2 1000 500) false) twoIdle /\
  In (session 0 10) (idleConnections twoIdle) /\
  exists t, lastUse twoIdle !! cid (session 0 10) = Some t /\
            mustPing twoIdle 1002 (session 0 10) =
              (minDelayValidation (mkOptions 2 1000 500) <=? 0)
              || (minDelayValidation (mkOptions 2 1000 500) <? 1002 - valueOf t).
Proof.
  pose proof twoIdle_reachable as Hr.
  assert (Hi : idleConnections twoIdle = [session 0 10; session 1 11])
    by compute_eq.
  assert (Hin : In (session 0 10) (idleConnections twoIdle)).
  { rewrite Hi. left. reflexivity. }
  pose proof (idle_sessions_have_lastUse any_event (mkOptions 2 1000 500) false
                twoIdle 1002 (session 0 10) Hr Hin) as H.
  split; [exact Hr|]. split; [exact Hin|exact H].
Defined.
